(** * DRSpy digitizer reader: a shallow embedding of
      [src/DRSpy/plugins/digitizer_reader.py] and the properties of its
      preprocessing pipeline and event construction.

    Conventions of the embedding.
    - A one-dimensional integer array is a [list Z]; a waveform (one row of a
      channel's matrix) is a [list Q]; a channel's matrix is a list of rows.
    - The arithmetic of the source is given at two levels.  The functions
      named after the source at the top level ([correct_timestamps],
      [subtract_baseline], [preprocess], ...) compute on integers and on
      rationals: they say which values the loops combine, in which order.
      The functions of the module [Machine] compute as NumPy does on the
      arrays of a data file.  An integer array has an element type: a sum
      stored into the array wraps, and a Python integer that is out of the
      range of the type raises.  The samples have an arithmetic of their
      own: the operations of a floating-point type round, an integer
      matrix cannot be corrected in place, and neither can a matrix whose
      rows differ in length.  A finite floating-point number is the
      rational that it denotes; infinities and NaN are left out.  The two
      levels agree where nothing wraps, rounds or raises.
    - The operations on a matrix are written for any element type, so that
      what they do to a sample is also stated without reference to the
      arithmetic.
    - A Python exception is identified by the name of its class.  A call that
      can raise returns [exn + A].
    - The dictionary of events is a [gmap] from channel number to the list of
      that channel's events. *)

From Stdlib Require Import ZArith QArith Qminmax Qround Qabs Lia Lqa Ascii String
  DecimalString.
From Stdlib Require DecimalZ.
From stdpp Require Import base option list sorting gmap strings.

Local Open Scope Z_scope.

(** ** Exceptions *)

Definition exn : Type := string.

Definition StopIteration : exn := "StopIteration"%string.
Definition ValueError : exn := "ValueError"%string.
Definition IndexError : exn := "IndexError"%string.
Definition KeyError : exn := "KeyError"%string.
Definition OverflowError : exn := "OverflowError"%string.

(** The class of the error that a universal function raises when its
    result cannot be stored into the output array; a [TypeError]. *)
Definition UFuncOutputCastingError : exn := "_UFuncOutputCastingError"%string.

(** The error class that the specification names for an invalid waveform.
    The source defines no error class of its own. *)
Definition InvalidWaveformError : exn := "InvalidWaveformError"%string.

Definition result (A : Type) : Type := exn + A.

Definition raise {A} (e : exn) : result A := inl e.
Definition ret {A} (a : A) : result A := inr a.
Definition bind {A B} (m : result A) (k : A -> result B) : result B :=
  match m with
  | inl e => inl e
  | inr a => k a
  end.

Declare Scope result_scope.
Delimit Scope result_scope with result.
Notation "'let?' x ':=' m 'in' k" := (bind m (fun x => k))
  (at level 10, x pattern, m at level 100, k at level 200) : result_scope.
Local Open Scope result_scope.

(** ** Array helpers (the NumPy and built-in operations the source uses) *)

Module Np.

(** [a[:-1] > a[1:]], element by element. *)
Definition adjacent_gt (a : list Z) : list bool :=
  zip_with Z.gtb (removelast a) (tail a).

(** [np.where(mask)[0]]: the positions that hold [True], ascending. *)
Fixpoint where_from (i : nat) (mask : list bool) : list nat :=
  match mask with
  | [] => []
  | b :: mask' =>
      if b then i :: where_from (S i) mask' else where_from (S i) mask'
  end.

Definition where_ (mask : list bool) : list nat := where_from 0 mask.

(** [a[start:] += v], in place. *)
Definition add_from (start : nat) (v : Z) (a : list Z) : list Z :=
  take start a ++ map (fun x => x + v) (drop start a).

(** [enumerate(l)] *)
Definition enumerate {A} (l : list A) : list (nat * A) :=
  zip (seq 0 (length l)) l.

(** The operations on a matrix of samples, a list of rows.  They are the
    same for every element type; the arithmetic of the elements is given. *)
Section Broadcast.

Context {F : Type} (mean : list F -> F) (sub div : F -> F -> F).

(** [np.mean(m[:, :n], axis=1, keepdims=True)]: one mean per row. *)
Definition mean_cols (n : nat) (m : list (list F)) : list F :=
  map (fun w => mean (take n w)) m.

(** [m -= col], the column broadcast along each row. *)
Definition sub_col (m : list (list F)) (col : list F) : list (list F) :=
  zip_with (fun w b => map (fun x => sub x b) w) m col.

(** [m /= c] *)
Definition div_scalar (m : list (list F)) (c : F) : list (list F) :=
  map (map (fun x => div x c)) m.

End Broadcast.

End Np.

(** ** Preprocessor.correct_timestamps *)

Definition increment : Z := 2 ^ 30.

(** [np.where(timestamps[:-1] > timestamps[1:])[0] + 1] *)
Definition reset_indices (timestamps : list Z) : list nat :=
  map S (Np.where_ (Np.adjacent_gt timestamps)).

(** One turn of the loop:
    [timestamps[reset_index:] += increment * (i + 1)]. *)
Definition correct_step (timestamps : list Z) (p : nat * nat) : list Z :=
  Np.add_from p.2 (increment * (Z.of_nat p.1 + 1)) timestamps.

(** The body of [Preprocessor.correct_timestamps], on the array that it
    reads and updates: the reset points are found once, before the loop. *)
Definition correct_timestamps (timestamps : list Z) : list Z :=
  fold_left correct_step (Np.enumerate (reset_indices timestamps)) timestamps.

(** The same loop on an array of machine integers: [wrap] is what storing
    a sum into an element of the array makes of it (the identity on the
    values that the element type holds). *)
Definition correct_step_in (wrap : Z -> Z) (timestamps : list Z)
    (p : nat * nat) : list Z :=
  take p.2 timestamps
  ++ map (fun x => wrap (x + increment * (Z.of_nat p.1 + 1)))
         (drop p.2 timestamps).

Definition correct_timestamps_in (wrap : Z -> Z) (timestamps : list Z)
  : list Z :=
  fold_left (correct_step_in wrap) (Np.enumerate (reset_indices timestamps))
            timestamps.

(** ** Strings: the built-in operations of [get_channel_list] *)

Module Str.

Local Open Scope string_scope.

(** [s.startswith(p)] *)
Fixpoint starts_with (p s : string) : bool :=
  match p, s with
  | EmptyString, _ => true
  | String a p', String b s' => if decide (a = b) then starts_with p' s' else false
  | String _ _, EmptyString => false
  end.

(** [sub in s] *)
Fixpoint contains (sub s : string) : bool :=
  starts_with sub s ||
  match s with
  | EmptyString => false
  | String _ s' => contains sub s'
  end.

(** [s.split(sep)] for a non-empty [sep]: [cur] holds the piece being
    read, [skip] the characters of a separator that are still to be
    passed over. *)
Fixpoint split_go (sep : string) (skip : nat) (cur : string) (s : string)
  : list string :=
  match s with
  | EmptyString => [cur]
  | String a s' =>
      match skip with
      | S k => split_go sep k cur s'
      | O =>
          if starts_with sep s
          then cur :: split_go sep (String.length sep - 1) EmptyString s'
          else split_go sep 0 (cur +:+ String a EmptyString) s'
      end
  end.

Definition split (sep s : string) : list string :=
  split_go sep 0 EmptyString s.

(** The characters [int] strips: the ASCII white space of [str.isspace]. *)
Definition is_space (a : ascii) : bool :=
  let n := nat_of_ascii a in
  ((9 <=? n) && (n <=? 13) || (28 <=? n) && (n <=? 32))%nat.

Definition is_digit (a : ascii) : bool :=
  let n := nat_of_ascii a in ((48 <=? n) && (n <=? 57))%nat.

Definition digit_value (a : ascii) : Z := Z.of_nat (nat_of_ascii a) - 48.

Fixpoint lstrip (s : string) : string :=
  match s with
  | EmptyString => EmptyString
  | String a s' => if is_space a then lstrip s' else s
  end.

Fixpoint rstrip (s : string) : string :=
  match s with
  | EmptyString => EmptyString
  | String a s' =>
      match rstrip s' with
      | EmptyString => if is_space a then EmptyString else String a EmptyString
      | r => String a r
      end
  end.

(** Decimal digits, single underscores allowed between two digits. *)
Fixpoint digits (acc : Z) (after_digit : bool) (s : string) : option Z :=
  match s with
  | EmptyString => if after_digit then Some acc else None
  | String a s' =>
      if is_digit a then digits (10 * acc + digit_value a) true s'
      else if decide (a = "_"%char) then
             if after_digit then digits acc false s' else None
           else None
  end.

(** [int(s)] *)
Definition int (s : string) : result Z :=
  let body := rstrip (lstrip s) in
  let parsed :=
    match body with
    | String a r =>
        if decide (a = "+"%char) then digits 0 false r
        else if decide (a = "-"%char) then Z.opp <$> digits 0 false r
        else digits 0 false body
    | EmptyString => None
    end in
  match parsed with
  | Some n => ret n
  | None => raise ValueError
  end.

(** [str(n)], as the f-string formats a channel number. *)
Definition of_int (n : Z) : string :=
  DecimalString.NilZero.string_of_int (Z.to_int n).

End Str.

(** ** The data source

    The structured-file reader is an external library: the source only asks
    it for the names of the branches and for the array of a named branch.
    A [Tree] is what [read_file] returns, seen through these two calls.  A
    branch read for its waveforms holds a matrix of samples (events by
    samples) and the branch read for the timestamps a flat integer array. *)

Abbreviation waveform_t := (list Q) (only parsing).
Abbreviation matrix := (list (list Q)) (only parsing).

Record Tree := {
  keys : list string;                      (* [file_content.keys()] *)
  samples_of : string -> option matrix;    (* [file_content[k].array()] *)
  counts_of : string -> option (list Z);   (* [file_content[k].array()] *)
}.

Record RawDataContainer := {
  channels : list Z;
  waveforms : list matrix;
  timestamps : list Z;
}.

(** [for x in l: a = f(a, x)], stopping at the first exception. *)
Fixpoint foldM {A B} (f : A -> B -> result A) (a : A) (l : list B) : result A :=
  match l with
  | [] => ret a
  | b :: l' => let? a' := f a b in foldM f a' l'
  end.

(** [[f(x) for x in l]], stopping at the first exception. *)
Fixpoint mapM {A B} (f : A -> result B) (l : list A) : result (list B) :=
  match l with
  | [] => ret []
  | a :: l' => let? b := f a in let? bs := mapM f l' in ret (b :: bs)
  end.

(** [int(channel.split('_')[0].split('channel')[1])] *)
Definition channel_of_key (key : string) : result Z :=
  match Str.split "_" key with
  | [] => raise IndexError
  | head :: _ =>
      match Str.split "channel" head with
      | _ :: number :: _ => Str.int number
      | _ => raise IndexError
      end
  end.

Section Container.

(** [list(set(l))]: the order in which the interpreter iterates over a
    set of integers is its own; the embedding takes it as given. *)
Variable set_to_list : list Z -> list Z.

Definition get_channel_list (t : Tree) : result (list Z) :=
  let? found := mapM channel_of_key (filter (fun k => Str.contains "waveforms" k = true) (keys t)) in
  ret (set_to_list found).

Definition get_waveforms (t : Tree) (channels : list Z) : result (list matrix) :=
  mapM (fun channel =>
          match samples_of t ("channel" +:+ Str.of_int channel +:+ "_waveforms") with
          | Some m => ret m
          | None => raise KeyError
          end) channels.

Definition get_timestamps (t : Tree) : result (list Z) :=
  match counts_of t "timestamp" with
  | Some v => ret v
  | None => raise KeyError
  end.

(** [RawDataContainer.__init__], from the opened tree on.  [np.array]
    stacks the matrices of the channels along a new first axis; the list of
    the matrices stands for the stack.  (Matrices of different shapes do not
    stack; what [np.array] makes of them is not modelled.) *)
Definition new_RawDataContainer (t : Tree) : result RawDataContainer :=
  let? cs := get_channel_list t in
  let? ws := get_waveforms t cs in
  let? ts := get_timestamps t in
  ret {| channels := cs; waveforms := ws; timestamps := ts |}.

End Container.

(** ** Preprocessor: the two waveform corrections *)

Definition Qsum (l : list Q) : Q := foldr Qplus 0%Q l.

(** [np.mean] of one row. *)
Definition mean (l : list Q) : Q := (Qsum l / inject_Z (Z.of_nat (length l)))%Q.

(** [np.mean(m[:, :50], axis=1, keepdims=True)]: one baseline per row. *)
Definition baselines (m : matrix) : list Q := Np.mean_cols mean 50 m.

(** [a[i] = f(a[i])]; an index past the end raises. *)
Definition update_at {A} (f : A -> A) (a : list A) (i : nat) : result (list A) :=
  match a !! i with
  | Some x => ret (<[i := f x]> a)
  | None => raise IndexError
  end.

(** [for i, channel in enumerate(channels): waveforms[i] = f(waveforms[i])] *)
Definition for_each_channel (f : matrix -> matrix) (c : RawDataContainer)
  : result RawDataContainer :=
  let? ws := foldM (update_at f) (waveforms c) (seq 0 (length (channels c))) in
  ret {| channels := channels c; waveforms := ws; timestamps := timestamps c |}.

Definition subtract_baseline : RawDataContainer -> result RawDataContainer :=
  for_each_channel (fun m => Np.sub_col Qminus m (baselines m)).

Definition turn_into_volts : RawDataContainer -> result RawDataContainer :=
  for_each_channel (fun m => Np.div_scalar Qdiv m 4096%Q).

(** [Preprocessor.correct_timestamps] as a method: the array of the
    container is replaced by the corrected one. *)
Definition correct_timestamps_of (c : RawDataContainer) : result RawDataContainer :=
  ret {| channels := channels c; waveforms := waveforms c;
         timestamps := correct_timestamps (timestamps c) |}.

(** [self.subtract_baseline().turn_into_volts().correct_timestamps()] *)
Definition preprocess_raw_data (c : RawDataContainer) : result RawDataContainer :=
  let? c1 := subtract_baseline c in
  let? c2 := turn_into_volts c1 in
  correct_timestamps_of c2.

Definition preprocess : RawDataContainer -> result RawDataContainer :=
  preprocess_raw_data.

(** ** DigitizerEvent *)

Record DigitizerEvent := {
  waveform : waveform_t;
  timestamp : Z;
  amplitude : Q;
}.

(** [np.amin]: the reduction has no identity, an empty array raises. *)
Definition amin (w : waveform_t) : result Q :=
  match w with
  | [] => raise ValueError
  | x :: w' => ret (foldl Qmin x w')
  end.

(** The generated [__init__] followed by [__post_init__]. *)
Definition new_DigitizerEvent (waveform : waveform_t) (timestamp : Z)
  : result DigitizerEvent :=
  let? lowest := amin waveform in
  ret {| waveform := waveform; timestamp := timestamp;
         amplitude := (lowest * -1)%Q |}.

(** ** itertools.cycle

    The iterator first passes over its argument, keeping each element it
    yields; once the argument is exhausted it repeats the kept elements for
    ever.  With nothing kept, [next] raises [StopIteration]. *)

Record cycle := {
  pending : list Z;     (* what the pass in progress has still to yield *)
  saved : list Z;       (* the elements kept *)
  first_pass : bool;
}.

Definition new_cycle (iterable : list Z) : cycle :=
  {| pending := iterable; saved := []; first_pass := true |}.

Definition next (it : cycle) : result (Z * cycle) :=
  match pending it with
  | x :: rest =>
      ret (x, {| pending := rest;
                 saved := if first_pass it then saved it ++ [x] else saved it;
                 first_pass := first_pass it |})
  | [] =>
      match saved it with
      | [] => raise StopIteration
      | x :: rest =>
          ret (x, {| pending := rest; saved := saved it; first_pass := false |})
      end
  end.

(** ** DigitizerEventData *)

(** [[DigitizerEvent(waveform=w, timestamp=next(timestamps)) for w in waveforms]]:
    the arguments are evaluated before the call, so the timestamp is drawn
    first. *)
Fixpoint events_of (ws : matrix) (it : cycle) : result (list DigitizerEvent * cycle) :=
  match ws with
  | [] => ret ([], it)
  | w :: ws' =>
      let? got := next it in
      let? ev := new_DigitizerEvent w got.1 in
      let? built := events_of ws' got.2 in
      ret (ev :: built.1, built.2)
  end.

(** The loop over [zip(channels, waveforms)]. *)
Fixpoint fill_events_dict (pairs : list (Z * matrix))
    (events_dict : gmap Z (list DigitizerEvent)) (it : cycle)
  : result (gmap Z (list DigitizerEvent) * cycle) :=
  match pairs with
  | [] => ret (events_dict, it)
  | (channel, ws) :: pairs' =>
      let? built := events_of ws it in
      fill_events_dict pairs' (<[channel := built.1]> events_dict) built.2
  end.

Definition create_events_dict (data : RawDataContainer)
  : result (gmap Z (list DigitizerEvent)) :=
  let? filled :=
    fill_events_dict (zip (channels data) (waveforms data)) ∅
                     (new_cycle (timestamps data)) in
  ret filled.1.

(** ** Arrays with an element type

    The element type of a NumPy integer array has a fixed width.  The
    timestamps are read from the data file with the element type of their
    branch, and [np.array] keeps it. *)

Inductive dtype :=
  int8 | int16 | int32 | int64 | uint8 | uint16 | uint32 | uint64.

Module Dtype.

Definition bits (dt : dtype) : Z :=
  match dt with
  | int8 | uint8 => 8
  | int16 | uint16 => 16
  | int32 | uint32 => 32
  | int64 | uint64 => 64
  end.

Definition signed (dt : dtype) : bool :=
  match dt with
  | int8 | int16 | int32 | int64 => true
  | uint8 | uint16 | uint32 | uint64 => false
  end.

(** [np.iinfo(dt).min] and [np.iinfo(dt).max] *)
Definition min (dt : dtype) : Z :=
  if signed dt then - 2 ^ (bits dt - 1) else 0.

Definition max (dt : dtype) : Z :=
  if signed dt then 2 ^ (bits dt - 1) - 1 else 2 ^ bits dt - 1.

Definition fits (dt : dtype) (x : Z) : bool :=
  (min dt <=? x) && (x <=? max dt).

(** What an element of the type keeps of the integer [x]: its low [bits]
    bits, read in two's complement when the type is signed. *)
Definition wrap (dt : dtype) (x : Z) : Z :=
  (x - min dt) mod 2 ^ bits dt + min dt.

End Dtype.

(** ** Floating-point samples: the binary64 format

    A finite number of the format is the rational that it denotes. *)

Module Float64.

Local Open Scope Q_scope.

(** [2^e] *)
Definition pow2 (e : Z) : Q :=
  if (0 <=? e)%Z then inject_Z (2 ^ e) else / inject_Z (2 ^ (- e)).

(** The [e] with [2^e <= |x| < 2^(e+1)], for [x] other than 0. *)
Definition exponent (x : Q) : Z :=
  let a := Qabs x in
  let e := (Z.log2 (Qnum a) - Z.log2 (Zpos (Qden a)))%Z in
  if Qle_bool (pow2 e) a then e else (e - 1)%Z.

(** The nearest integer, the even one of two that are equally near. *)
Definition rint (q : Q) : Z :=
  let f := Qfloor q in
  match Qcompare (q - inject_Z f) (1 # 2) with
  | Lt => f
  | Gt => (f + 1)%Z
  | Eq => if Z.even f then f else (f + 1)%Z
  end.

(** The nearest number of the format: 53 significant bits, the smallest
    unit [2^-1074].  (The largest number of the format is not modelled:
    nothing here comes near [2^1024].) *)
Definition round (x : Q) : Q :=
  if Qeq_bool x 0 then 0
  else let ulp := pow2 (Z.max (exponent x - 52) (-1074)) in
       Qred (inject_Z (rint (x / ulp)) * ulp).

Definition add (x y : Q) : Q := round (x + y).
Definition sub (x y : Q) : Q := round (x - y).
Definition div (x y : Q) : Q := round (x / y).

(** The eight running sums of the unrolled loop of the summation:
    [r[j] += a[i + j]] for each full block of eight that follows the
    first. *)
Fixpoint accumulate (blocks : nat) (r a : list Q) : list Q * list Q :=
  match blocks with
  | O => (r, a)
  | S blocks' => accumulate blocks' (zip_with add r (take 8 a)) (drop 8 a)
  end.

(** The sum that [np.add.reduce] makes of a run of up to 128 numbers (the
    50 of a baseline are such a run): in sequence when there are fewer than
    eight, else with eight running sums that are added in pairs, the
    numbers left over last. *)
Definition sum (a : list Q) : Q :=
  if (length a <? 8)%nat then fold_left add a 0
  else
    let (r, rest) := accumulate (length a / 8 - 1) (take 8 a) (drop 8 a) in
    match r with
    | [r0; r1; r2; r3; r4; r5; r6; r7] =>
        fold_left add rest
          (add (add (add r0 r1) (add r2 r3)) (add (add r4 r5) (add r6 r7)))
    | _ => 0
    end.

(** [np.mean] of a run of numbers: the sum, divided by the count. *)
Definition mean (a : list Q) : Q :=
  div (sum a) (inject_Z (Z.of_nat (length a))).

End Float64.

(** The element type of the samples of a container, by what the source
    needs of it: whether it is a floating-point type, its subtraction and
    its division, and what [np.mean] makes of a run of samples. *)
Record sample_type := {
  floating : bool;
  fsub : Q -> Q -> Q;
  fdiv : Q -> Q -> Q;
  fmean : list Q -> Q;
}.

Definition float64 : sample_type :=
  {| floating := true; fsub := Float64.sub; fdiv := Float64.div;
     fmean := Float64.mean |}.

(** Samples of an integer type.  The in-place corrections refuse them
    before any sample is computed; the operations are never reached. *)
Definition integer_samples : sample_type :=
  {| floating := false; fsub := Qminus; fdiv := Qdiv; fmean := mean |}.

(** The rows of [m] have one length: the reader then returns a
    two-dimensional array, else a one-dimensional array whose elements are
    the rows. *)
Definition rectangular (m : matrix) : bool :=
  match m with
  | [] => true
  | w :: m' => forallb (fun w' => length w' =? length w)%nat m'
  end.

(** [m.shape] *)
Definition shape (m : matrix) : list nat :=
  if rectangular m then [length m; length (hd [] m)] else [length m].

(** ** The source on the arrays of a data file *)

Module Machine.

(** [a[start:] += v] for a Python integer [v], in place: NumPy (from
    version 2 on) converts [v] to the element type of [a], and raises when
    [v] is out of its range; a sum that is out of the range wraps. *)
Definition iadd_from (dt : dtype) (start : nat) (v : Z) (a : list Z)
  : result (list Z) :=
  if Dtype.fits dt v
  then ret (take start a ++ map (fun x => Dtype.wrap dt (x + v)) (drop start a))
  else raise OverflowError.

(** One turn of the loop:
    [timestamps[reset_index:] += increment * (i + 1)]. *)
Definition correct_step (dt : dtype) (timestamps : list Z) (p : nat * nat)
  : result (list Z) :=
  iadd_from dt p.2 (increment * (Z.of_nat p.1 + 1)) timestamps.

(** The body of [Preprocessor.correct_timestamps] on an array of element
    type [dt]: the reset points are found once, before the loop. *)
Definition correct_timestamps (dt : dtype) (timestamps : list Z)
  : result (list Z) :=
  foldM (correct_step dt) timestamps (Np.enumerate (reset_indices timestamps)).

(** [a[i] = f(a[i])], where [f] can raise; an index past the end raises. *)
Definition update_at {A} (f : A -> result A) (a : list A) (i : nat)
  : result (list A) :=
  match a !! i with
  | Some x => let? y := f x in ret (<[i := y]> a)
  | None => raise IndexError
  end.

(** [for i, channel in enumerate(channels): waveforms[i] = f(waveforms[i])] *)
Definition for_each_channel (f : matrix -> result matrix)
    (c : RawDataContainer) : result RawDataContainer :=
  let? ws := foldM (update_at f) (waveforms c) (seq 0 (length (channels c))) in
  ret {| channels := channels c; waveforms := ws; timestamps := timestamps c |}.

(** [waveforms[i][:, :50]] takes two indices, which an array of rows of
    different lengths does not have; [-=] stores the differences into the
    matrix, which a matrix of integers cannot hold. *)
Definition subtract_baseline (st : sample_type)
  : RawDataContainer -> result RawDataContainer :=
  for_each_channel (fun m =>
    if negb (rectangular m) then raise IndexError
    else if negb (floating st) then raise UFuncOutputCastingError
    else ret (Np.sub_col (fsub st) m (Np.mean_cols (fmean st) 50 m))).

Definition turn_into_volts (st : sample_type)
  : RawDataContainer -> result RawDataContainer :=
  for_each_channel (fun m =>
    if negb (floating st) then raise UFuncOutputCastingError
    else ret (Np.div_scalar (fdiv st) m 4096%Q)).

Definition correct_timestamps_of (dt : dtype) (c : RawDataContainer)
  : result RawDataContainer :=
  let? ts := correct_timestamps dt (timestamps c) in
  ret {| channels := channels c; waveforms := waveforms c; timestamps := ts |}.

(** [self.subtract_baseline().turn_into_volts().correct_timestamps()] *)
Definition preprocess_raw_data (st : sample_type) (dt : dtype)
    (c : RawDataContainer) : result RawDataContainer :=
  let? c1 := subtract_baseline st c in
  let? c2 := turn_into_volts st c1 in
  correct_timestamps_of dt c2.

Definition preprocess
  : sample_type -> dtype -> RawDataContainer -> result RawDataContainer :=
  preprocess_raw_data.

(** [np.array(waveforms)]: the matrices of the channels are stacked along
    a new first axis, which arrays of different shapes do not allow.  The
    list of the matrices stands for the stack. *)
Definition stack (ws : list matrix) : result (list matrix) :=
  match ws with
  | [] => ret []
  | m :: ws' =>
      if forallb (fun m' => bool_decide (shape m' = shape m)) ws'
      then ret ws else raise ValueError
  end.

(** [RawDataContainer.__init__], from the opened tree on. *)
Definition new_RawDataContainer (set_to_list : list Z -> list Z) (t : Tree)
  : result RawDataContainer :=
  let? cs := get_channel_list set_to_list t in
  let? read := get_waveforms t cs in
  let? ws := stack read in
  let? ts := get_timestamps t in
  ret {| channels := cs; waveforms := ws; timestamps := ts |}.

(** [DigitizerEventData.create_from_file], from the opened tree on; [st]
    and [dt] are the element types of the waveform branches and of the
    branch [timestamp]. *)
Definition create_from_file (set_to_list : list Z -> list Z)
    (st : sample_type) (dt : dtype) (t : Tree)
  : result (gmap Z (list DigitizerEvent)) :=
  let? raw_data := new_RawDataContainer set_to_list t in
  let? preprocessed_data := preprocess st dt raw_data in
  create_events_dict preprocessed_data.

End Machine.

(** ** Vocabulary of the properties *)

(** What the loop has added at position [j] after the turns [ps]. *)
Fixpoint offset_at (ps : list (nat * nat)) (j : nat) : Z :=
  match ps with
  | [] => 0
  | p :: ps' =>
      (if decide (p.2 <= j)%nat then increment * (Z.of_nat p.1 + 1) else 0)
      + offset_at ps' j
  end.

(** What the turns [ps] of the loop add at most to an entry. *)
Fixpoint total_added (ps : list (nat * nat)) : Z :=
  match ps with
  | [] => 0
  | p :: ps' => increment * (Z.of_nat p.1 + 1) + total_added ps'
  end.

(** [1 + 2 + ... + k] *)
Fixpoint triangle (k : nat) : Z :=
  match k with
  | O => 0
  | S k' => triangle k' + Z.of_nat k
  end.

(** The number of resets at or before position [j]. *)
Definition resets_upto (ts : list Z) (j : nat) : nat :=
  length (filter (fun r => r <= j)%nat (reset_indices ts)).

Definition non_decreasing (a : list Z) : Prop :=
  forall i x y, a !! i = Some x -> a !! S i = Some y -> x <= y.

(** The iterator [it] over [ts] stands at position [p] of a pass. *)
Definition cycle_at (ts : list Z) (p : nat) (it : cycle) : Prop :=
  (p <= length ts)%nat /\
  pending it = drop p ts /\
  saved it = if first_pass it then take p ts else ts.

(** The iterator [it] over [ts] has been drawn from [j] times. *)
Definition drawn (ts : list Z) (j : nat) (it : cycle) : Prop :=
  exists p, (p mod length ts = j mod length ts)%nat /\ cycle_at ts p it.

(** The number of events built for the channels before the [i]-th. *)
Definition events_before (ws : list matrix) (i : nat) : nat :=
  sum_list (length <$> take i ws).

Definition nonempty_waveforms (ws : matrix) : Prop :=
  Forall (fun w => w <> []) ws.

(** The invariants of a container: the channel numbers come out of a set,
    and there is one matrix of waveforms per channel. *)
Definition container_ok (data : RawDataContainer) : Prop :=
  NoDup (channels data) /\ length (channels data) = length (waveforms data).


(** The event [ev] is what the constructor makes of a waveform of the
    container and of an entry of its timestamp array. *)
Definition built_from (data : RawDataContainer) (ev : DigitizerEvent) : Prop :=
  timestamp ev ∈ timestamps data /\
  (exists m, m ∈ waveforms data /\ waveform ev ∈ m) /\
  new_DigitizerEvent (waveform ev) (timestamp ev) = inr ev.

(** [f'channel{channel}_waveforms'], the branch name that [get_waveforms]
    asks for. *)
Definition waveforms_key (channel : Z) : string :=
  ("channel" +:+ Str.of_int channel +:+ "_waveforms")%string.

(** The keys that hold [waveforms] are branch names of channel numbers,
    and their branches can be read. *)
Definition well_formed (t : Tree) : Prop :=
  (forall k, k ∈ keys t -> Str.contains "waveforms" k = true ->
     exists n, k = waveforms_key n /\ is_Some (samples_of t k)) /\
  is_Some (counts_of t "timestamp").

(** The naming pattern [channel<N>_waveforms] of the specification: the
    word [channel], the decimal digits of [N], the word [_waveforms]. *)
Fixpoint all_digits (s : string) : bool :=
  match s with
  | EmptyString => true
  | String a s' => Str.is_digit a && all_digits s'
  end.

Fixpoint decimal (acc : Z) (s : string) : Z :=
  match s with
  | EmptyString => acc
  | String a s' => decimal (10 * acc + Str.digit_value a) s'
  end.

Definition names_channel (key : string) (n : Z) : Prop :=
  exists ds, ds <> EmptyString /\ all_digits ds = true /\
    key = ("channel" +:+ ds +:+ "_waveforms")%string /\ n = decimal 0 ds.

(** The string [s] has no character [c]. *)
Fixpoint avoids (c : ascii) (s : string) : Prop :=
  match s with
  | EmptyString => True
  | String a s' => a <> c /\ avoids c s'
  end.

(** What the specification says of the channel list of a source: it holds,
    once each, the numbers of the keys of the pattern. *)
Definition channel_set_of_pattern (set_to_list : list Z -> list Z) (t : Tree)
  : Prop :=
  exists cs, get_channel_list set_to_list t = inr cs /\ NoDup cs /\
    forall n, n ∈ cs <-> exists k, k ∈ keys t /\ names_channel k n.

(** A source with a branch whose name holds [waveforms] without being of
    the pattern, and a source without any branch. *)
Definition tree_other_waveforms : Tree :=
  {| keys := ["timestamp"; "waveforms"]%string;
     samples_of := fun _ => None;
     counts_of := fun k => if decide (k = "timestamp"%string) then Some [5; 6; 2; 3] else None |}.

Definition tree_empty : Tree :=
  {| keys := []; samples_of := fun _ => None; counts_of := fun _ => None |}.

(** What the two corrections make of one waveform, in the arithmetic of
    its samples. *)
Definition volts_in (st : sample_type) (raw : waveform_t) : waveform_t :=
  map (fun x => fdiv st (fsub st x (fmean st (take 50 raw))) 4096%Q) raw.

(** The matrix [m] is a two-dimensional array of [rows] rows and [cols]
    columns. *)
Definition of_shape (rows cols : nat) (m : matrix) : Prop :=
  length m = rows /\ Forall (fun w => length w = cols) m.

(** The characters of [s] are ASCII: on such a string the operations of
    [Str] are those of a Python [str]. *)
Fixpoint is_ascii (s : string) : bool :=
  match s with
  | EmptyString => true
  | String a s' => (nat_of_ascii a <? 128)%nat && is_ascii s'
  end.

(** A source with the branch [timestamp] alone. *)
Definition tree_timestamps (ts : list Z) : Tree :=
  {| keys := ["timestamp"]%string;
     samples_of := fun _ => None;
     counts_of := fun k => if decide (k = "timestamp"%string) then Some ts else None |}.

(** * Properties *)

(** ** Timestamp correction *)

Section Timestamps.

Implicit Types (a ts : list Z) (ps : list (nat * nat)) (i j k : nat).

Lemma increment_pos : 0 < increment.
Proof. reflexivity. Qed.

Lemma add_from_lookup start v a j :
  Np.add_from start v a !! j
  = (fun x => if decide (start <= j)%nat then x + v else x) <$> a !! j.
Proof.
  unfold Np.add_from. revert a j.
  induction start as [|s IH]; intros a j.
  - rewrite take_0, drop_0. simpl. by rewrite list_lookup_fmap.
  - destruct a as [|x a]; [done|].
    destruct j as [|j]; simpl; [done|].
    rewrite IH. destruct (a !! j); simpl; [|done].
    repeat case_decide; (done || lia).
Qed.

Lemma add_from_length start v a :
  length (Np.add_from start v a) = length a.
Proof.
  unfold Np.add_from.
  rewrite length_app, length_map, length_take, length_drop. lia.
Qed.

Lemma fold_correct_lookup ps a j :
  fold_left correct_step ps a !! j = (fun x => x + offset_at ps j) <$> a !! j.
Proof.
  revert a. induction ps as [|p ps IH]; intros a; simpl.
  - destruct (a !! j); simpl; [f_equal; lia | done].
  - rewrite IH. unfold correct_step. rewrite add_from_lookup.
    destruct (a !! j); simpl; [|done].
    f_equal. case_decide; lia.
Qed.

Lemma offset_at_step ps j : offset_at ps j <= offset_at ps (S j).
Proof.
  induction ps as [|[i r] ps IH]; simpl; [lia|].
  pose proof increment_pos.
  repeat case_decide; nia.
Qed.

Lemma offset_at_jump ps i j :
  (i, S j) ∈ ps -> offset_at ps j + increment <= offset_at ps (S j).
Proof.
  pose proof increment_pos as Hinc.
  induction ps as [|[i' r] ps IH]; intros Hin.
  - by apply not_elem_of_nil in Hin.
  - apply elem_of_cons in Hin as [Heq | Hin]; simpl.
    + inversion Heq; subst i' r.
      pose proof (offset_at_step ps j).
      repeat case_decide; (lia || nia).
    + specialize (IH Hin).
      repeat case_decide; (lia || nia).
Qed.

Lemma enumerate_elem {A} (l : list A) k x :
  l !! k = Some x -> (k, x) ∈ Np.enumerate l.
Proof.
  intros Hk. unfold Np.enumerate.
  apply list_elem_of_lookup. exists k.
  rewrite lookup_zip_with.
  rewrite lookup_seq_lt by (by eapply lookup_lt_Some).
  simpl. by rewrite Hk.
Qed.

Lemma where_from_elem mask k i :
  mask !! i = Some true -> (k + i)%nat ∈ Np.where_from k mask.
Proof.
  revert k i. induction mask as [|b mask IH]; intros k i Hi; [done|].
  destruct i as [|i]; simpl in *.
  - inversion Hi; subst b. rewrite Nat.add_0_r. apply list_elem_of_here.
  - replace (k + S i)%nat with (S k + i)%nat by lia.
    destruct b; [apply list_elem_of_further|]; by apply IH.
Qed.

Lemma adjacent_gt_lookup ts j x y :
  ts !! j = Some x -> ts !! S j = Some y ->
  Np.adjacent_gt ts !! j = Some (x >? y).
Proof.
  revert j. induction ts as [|a ts IH]; intros j Hx Hy; [done|].
  destruct ts as [|b ts]; [done|].
  change (Np.adjacent_gt (a :: b :: ts))
    with ((a >? b) :: Np.adjacent_gt (b :: ts)).
  destruct j as [|j]; simpl in *.
  - by inversion Hx; inversion Hy; subst.
  - by apply IH.
Qed.

(** A decrease between two neighbours is a reset point. *)
Lemma reset_indices_elem ts j x y :
  ts !! j = Some x -> ts !! S j = Some y -> y < x ->
  S j ∈ reset_indices ts.
Proof.
  intros Hx Hy Hlt. unfold reset_indices, Np.where_.
  apply list_elem_of_fmap. exists j. split; [done|].
  apply (where_from_elem _ 0 j).
  rewrite (adjacent_gt_lookup ts j x y) by done.
  f_equal. apply Z.gtb_lt. lia.
Qed.

Lemma correct_timestamps_lookup ts j :
  correct_timestamps ts !! j
  = (fun x => x + offset_at (Np.enumerate (reset_indices ts)) j) <$> ts !! j.
Proof. apply fold_correct_lookup. Qed.

Lemma correct_timestamps_length ts :
  length (correct_timestamps ts) = length ts.
Proof.
  unfold correct_timestamps.
  generalize (Np.enumerate (reset_indices ts)). intros ps.
  revert ts. induction ps as [|p ps IH]; intros ts; simpl; [done|].
  rewrite IH. apply add_from_length.
Qed.

Lemma where_from_ge mask k : Forall (fun i => k <= i)%nat (Np.where_from k mask).
Proof.
  revert k. induction mask as [|b mask IH]; intros k; simpl; [constructor|].
  assert (Forall (fun i => k <= i)%nat (Np.where_from (S k) mask)) as Hrest.
  { eapply Forall_impl; [apply IH | simpl; lia]. }
  destruct b; [constructor; [lia | done] | done].
Qed.

Lemma where_from_sorted mask k : StronglySorted lt (Np.where_from k mask).
Proof.
  revert k. induction mask as [|b mask IH]; intros k; simpl; [constructor|].
  destruct b; [|apply IH].
  constructor; [apply IH|].
  eapply Forall_impl; [apply where_from_ge | simpl; lia].
Qed.

Lemma reset_indices_sorted ts : StronglySorted lt (reset_indices ts).
Proof.
  unfold reset_indices, Np.where_.
  apply (StronglySorted_fmap S lt lt); [lia | apply where_from_sorted].
Qed.

Lemma triangle_closed k :
  2 * triangle k = Z.of_nat k * (Z.of_nat k + 1).
Proof. induction k as [|k IH]; [done|]. cbn [triangle]. nia. Qed.

(** The turns numbered from [s] on add, at position [j], one more cycle
    for each reset passed than the reset before did. *)
Lemma offset_at_sorted (R : list nat) s j :
  StronglySorted lt R ->
  offset_at (zip (seq s (length R)) R) j
  = increment
    * (triangle (s + length (filter (fun r => r <= j)%nat R)) - triangle s).
Proof.
  revert s. induction R as [|r R IH]; intros s Hsorted.
  - simpl. rewrite Nat.add_0_r. lia.
  - apply StronglySorted_inv in Hsorted as [Hsorted Hr].
    cbn [length seq zip zip_with offset_at fst snd].
    rewrite (IH (S s) Hsorted).
    destruct (decide (r <= j)%nat) as [Hle | Hgt].
    + rewrite filter_cons_True by done. cbn [length].
      replace (s + S (length (filter (fun r0 => r0 <= j)%nat R)))%nat
        with (S s + length (filter (fun r0 => r0 <= j)%nat R))%nat by lia.
      cbn [triangle]. lia.
    + rewrite filter_cons_False by done.
      assert (filter (fun r0 => r0 <= j)%nat R = []) as ->.
      { destruct (filter _ R) as [|x l] eqn:Hf; [done|]. exfalso.
        assert (x ∈ filter (fun r0 => r0 <= j)%nat R)
          as [Hx Hin]%list_elem_of_filter
          by (rewrite Hf; apply list_elem_of_here).
        rewrite Forall_forall in Hr. specialize (Hr x Hin). lia. }
      simpl. rewrite !Nat.add_0_r. lia.
Qed.

Lemma total_added_enumerate (R : list nat) s :
  total_added (zip (seq s (length R)) R)
  = increment * (triangle (s + length R) - triangle s).
Proof.
  revert s. induction R as [|r R IH]; intros s.
  - simpl. rewrite Nat.add_0_r. lia.
  - cbn [length seq zip zip_with total_added fst].
    rewrite (IH (S s)).
    replace (s + S (length R))%nat with (S s + length R)%nat by lia.
    cbn [triangle]. lia.
Qed.

Lemma total_added_nonneg ps : 0 <= total_added ps.
Proof.
  pose proof increment_pos.
  induction ps as [|[i r] ps IH]; simpl; [lia | nia].
Qed.

(** While the sums fit the element type, the array of machine integers
    goes through the same values as the array of integers. *)
Lemma fold_correct_step_in (wrap : Z -> Z) (B L : Z) ps a :
  (forall x, 0 <= x < B -> wrap x = x) ->
  Forall (fun x => 0 <= x < L) a ->
  L + total_added ps <= B ->
  fold_left (correct_step_in wrap) ps a = fold_left correct_step ps a.
Proof.
  intros Hwrap. pose proof increment_pos as Hinc.
  revert a L. induction ps as [|[i r] ps IH]; intros a L Ha HB; [done|].
  cbn [fold_left total_added fst] in *.
  pose proof (total_added_nonneg ps) as Hps.
  set (v := increment * (Z.of_nat i + 1)) in *.
  assert (0 <= v) as Hv by (unfold v; nia).
  pose proof (Forall_take _ r _ Ha) as Hl.
  pose proof (Forall_drop _ r _ Ha) as Hr.
  rewrite Forall_forall in Hr.
  assert (correct_step_in wrap a (i, r) = correct_step a (i, r)) as ->.
  { unfold correct_step_in, correct_step, Np.add_from. cbn [fst snd]. fold v.
    f_equal. apply map_ext_in. intros x Hx%list_elem_of_In. apply Hwrap.
    specialize (Hr x Hx). lia. }
  apply (IH _ (L + v)); [|lia].
  unfold correct_step, Np.add_from. cbn [fst snd]. fold v.
  apply Forall_app. split.
  - eapply Forall_impl; [exact Hl | simpl; lia].
  - apply Forall_forall. intros y Hy%list_elem_of_In.
    apply in_map_iff in Hy as (x & <- & Hx%list_elem_of_In).
    specialize (Hr x Hx). lia.
Qed.

End Timestamps.

(** X7. An array of machine integers is corrected as the array of integers
    is, as long as its element type holds [2^30 * (k (k + 1) / 2 + 1)], for
    the [k] resets of the array. *)
Theorem correct_timestamps_in_fits (wrap : Z -> Z) (B : Z) (ts : list Z) :
  (forall x, 0 <= x < B -> wrap x = x) ->
  Forall (fun t => 0 <= t < 2 ^ 30) ts ->
  2 ^ 30 * (triangle (length (reset_indices ts)) + 1) <= B ->
  correct_timestamps_in wrap ts = correct_timestamps ts.
Proof.
  intros Hwrap Hts HB. unfold correct_timestamps_in, correct_timestamps.
  apply (fold_correct_step_in wrap B (2 ^ 30)); [done | done |].
  unfold Np.enumerate. rewrite total_added_enumerate.
  cbn [Nat.add triangle]. change increment with (2 ^ 30). lia.
Qed.

(** Unsigned 32-bit entries hold the two resets of [[3; 1; 0; 5]]. *)
Lemma correct_timestamps_in_fits_witness :
  correct_timestamps_in (fun x => x mod 2 ^ 32) [3; 1; 0; 5]
  = correct_timestamps [3; 1; 0; 5].
Proof.
  apply (correct_timestamps_in_fits _ (2 ^ 32)).
  - intros x Hx. by apply Z.mod_small.
  - repeat constructor; lia.
  - vm_compute. discriminate.
Defined.

(** What the loop computes on integers: from its [k]-th reset on, an entry
    carries [1 + 2 + ... + k = k (k + 1) / 2] clock cycles. *)
Lemma correct_timestamps_offset (ts : list Z) (j : nat) :
  correct_timestamps ts !! j
  = (fun x => x + increment * triangle (resets_upto ts j)) <$> ts !! j.
Proof.
  rewrite correct_timestamps_lookup. unfold Np.enumerate, resets_upto.
  rewrite (offset_at_sorted _ 0 j (reset_indices_sorted ts)).
  cbn [Nat.add triangle]. by rewrite Z.sub_0_r.
Qed.

(** A single reset is corrected by one clock cycle. *)
Example correct_timestamps_one_reset :
  correct_timestamps [5; 6; 2; 3] = [5; 6; 2 + 2^30; 3 + 2^30].
Proof. reflexivity. Qed.

(** C1. On [[3; 1; 0; 5]] the resets are found at the indices 1 and 2, and
    the loop adds [2^30] from index 1 on, then [2 * 2^30] more from index 2
    on: the entries from the second reset on carry [3 * 2^30], not the
    [2 * 2^30] of one clock cycle per reset. *)
Theorem correct_timestamps_two_resets :
  reset_indices [3; 1; 0; 5] = [1; 2]%nat /\
  correct_timestamps [3; 1; 0; 5]
  = [3; 1 + 2^30; 0 + 3 * 2^30; 5 + 3 * 2^30] /\
  correct_timestamps [3; 1; 0; 5]
  <> [3; 1 + 2^30; 0 + 2 * 2^30; 5 + 2 * 2^30].
Proof. repeat split. discriminate. Qed.

(** On integers the sums of the loop put any number of resets of a 30-bit
    array in order. *)
Lemma correct_timestamps_non_decreasing (ts : list Z) :
  Forall (fun t => 0 <= t < 2 ^ 30) ts ->
  non_decreasing (correct_timestamps ts).
Proof.
  intros Hrange i x y Hx Hy.
  rewrite correct_timestamps_lookup in Hx, Hy.
  destruct (ts !! i) as [a|] eqn:Ha; [|done].
  destruct (ts !! S i) as [b|] eqn:Hb; [|done].
  simpl in Hx, Hy. inversion Hx; inversion Hy; subst x y; clear Hx Hy.
  set (ps := Np.enumerate (reset_indices ts)).
  destruct (decide (a <= b)) as [Hle | Hgt].
  - pose proof (offset_at_step ps i). lia.
  - assert (Hreset : S i ∈ reset_indices ts)
      by (eapply reset_indices_elem; [done | done | lia]).
    apply list_elem_of_lookup in Hreset as [k Hk].
    pose proof (offset_at_jump ps k i (enumerate_elem _ _ _ Hk)) as Hjump.
    rewrite Forall_forall in Hrange.
    assert (0 <= a < 2 ^ 30)
      by (apply Hrange, list_elem_of_lookup; eauto).
    assert (0 <= b < 2 ^ 30)
      by (apply Hrange, list_elem_of_lookup; eauto).
    change increment with (2 ^ 30) in Hjump. lia.
Qed.

(** ** Timestamp correction on an array of machine integers *)

Section MachineTimestamps.

Implicit Types (dt : dtype) (a ts : list Z) (ps : list (nat * nat)).

Lemma dtype_min_nonpos dt : Dtype.min dt <= 0.
Proof. by destruct dt. Qed.

Lemma dtype_range dt : Dtype.max dt - Dtype.min dt + 1 = 2 ^ Dtype.bits dt.
Proof. by destruct dt. Qed.

Lemma dtype_fits_spec dt x :
  Dtype.fits dt x = true <-> Dtype.min dt <= x <= Dtype.max dt.
Proof. unfold Dtype.fits. rewrite andb_true_iff, !Z.leb_le. done. Qed.

Lemma dtype_wrap_fits dt x :
  Dtype.min dt <= x <= Dtype.max dt -> Dtype.wrap dt x = x.
Proof.
  intros Hx. unfold Dtype.wrap. pose proof (dtype_range dt).
  rewrite Z.mod_small by lia. lia.
Qed.

(** While the sums fit the element type, no turn raises and the array goes
    through the values of the loop on integers. *)
Lemma machine_fold_fits dt (L : Z) ps a :
  0 < L ->
  Forall (fun x => 0 <= x < L) a ->
  L + total_added ps <= Dtype.max dt + 1 ->
  foldM (Machine.correct_step dt) a ps = inr (fold_left correct_step ps a).
Proof.
  intros HL. pose proof increment_pos as Hinc.
  pose proof (dtype_min_nonpos dt) as Hmin.
  revert a L HL. induction ps as [|[i r] ps IH]; intros a L HL Ha HB; [done|].
  cbn [foldM fold_left total_added fst] in *.
  pose proof (total_added_nonneg ps) as Hps.
  unfold Machine.correct_step at 1, Machine.iadd_from. cbn [fst snd].
  set (v := increment * (Z.of_nat i + 1)) in *.
  assert (0 <= v) as Hv by (unfold v; nia).
  assert (Dtype.fits dt v = true) as -> by (apply dtype_fits_spec; lia).
  pose proof (Forall_take _ r _ Ha) as Hl.
  pose proof (Forall_drop _ r _ Ha) as Hr.
  rewrite Forall_forall in Hr.
  assert (take r a ++ map (fun x => Dtype.wrap dt (x + v)) (drop r a)
          = correct_step a (i, r)) as ->.
  { unfold correct_step, Np.add_from. cbn [fst snd]. fold v.
    f_equal. apply map_ext_in. intros x Hx%list_elem_of_In.
    apply dtype_wrap_fits. specialize (Hr x Hx). lia. }
  cbn [bind ret]. apply (IH _ (L + v)); [lia | | lia].
  unfold correct_step, Np.add_from. cbn [fst snd]. fold v.
  apply Forall_app. split.
  - eapply Forall_impl; [exact Hl | simpl; lia].
  - apply Forall_forall. intros y Hy%list_elem_of_In.
    apply in_map_iff in Hy as (x & <- & Hx%list_elem_of_In).
    specialize (Hr x Hx). lia.
Qed.

Lemma machine_correct_timestamps_fits dt ts :
  Forall (fun t => 0 <= t < 2 ^ 30) ts ->
  2 ^ 30 * (triangle (length (reset_indices ts)) + 1) <= Dtype.max dt + 1 ->
  Machine.correct_timestamps dt ts = inr (correct_timestamps ts).
Proof.
  intros Hts HB. unfold Machine.correct_timestamps, correct_timestamps.
  apply (machine_fold_fits dt (2 ^ 30)); [lia | done |].
  unfold Np.enumerate. rewrite total_added_enumerate.
  cbn [Nat.add triangle]. change increment with (2 ^ 30). lia.
Qed.

(** The turns of the loop keep the length of the array. *)
Lemma machine_fold_length dt ps a out :
  foldM (Machine.correct_step dt) a ps = inr out -> length out = length a.
Proof.
  revert a. induction ps as [|[i r] ps IH]; intros a H; simpl in H.
  - by inversion H.
  - unfold Machine.correct_step at 1, Machine.iadd_from in H. cbn [fst snd] in H.
    destruct (Dtype.fits dt _); [|done]. cbn [bind ret] in H.
    rewrite (IH _ H), length_app, length_map, length_take, length_drop. lia.
Qed.

(** A turn changes nothing before its reset point. *)
Lemma machine_fold_before dt ps a out j :
  foldM (Machine.correct_step dt) a ps = inr out ->
  (forall i r, (i, r) ∈ ps -> (j < r)%nat) ->
  out !! j = a !! j.
Proof.
  revert a. induction ps as [|[i r] ps IH]; intros a H Hj; simpl in H.
  - by inversion H.
  - unfold Machine.correct_step at 1, Machine.iadd_from in H. cbn [fst snd] in H.
    destruct (Dtype.fits dt _); [|done]. cbn [bind ret] in H.
    rewrite (IH _ H) by (intros i' r' Hin; apply (Hj i' r'); by right).
    assert (j < r)%nat as Hlt by (apply (Hj i r); by left).
    destruct (decide (j < length a)%nat) as [Hin | Hout].
    + rewrite lookup_app_l by (rewrite length_take; lia).
      by rewrite lookup_take_lt.
    + rewrite !lookup_ge_None_2; [done | lia |].
      rewrite length_app, length_map, length_take, length_drop. lia.
Qed.

(** The loop raises nothing when the integer of each turn fits the type,
    and only then; it raises nothing else than [OverflowError]. *)
Lemma machine_fold_returns dt ps a :
  Forall (fun p => increment * (Z.of_nat p.1 + 1) <= Dtype.max dt) ps ->
  exists out, foldM (Machine.correct_step dt) a ps = inr out.
Proof.
  pose proof increment_pos as Hinc. pose proof (dtype_min_nonpos dt) as Hmin.
  revert a. induction ps as [|[i r] ps IH]; intros a Hps; simpl.
  - by eexists.
  - apply Forall_cons in Hps as [Hp Hps]. cbn [fst] in Hp.
    unfold Machine.correct_step at 1, Machine.iadd_from. cbn [fst snd].
    assert (Dtype.fits dt (increment * (Z.of_nat i + 1)) = true) as ->
      by (apply dtype_fits_spec; nia).
    cbn [bind ret]. by apply IH.
Qed.

Lemma machine_fold_inv_fits dt ps a out :
  foldM (Machine.correct_step dt) a ps = inr out ->
  Forall (fun p => Dtype.fits dt (increment * (Z.of_nat p.1 + 1)) = true) ps.
Proof.
  revert a. induction ps as [|[i r] ps IH]; intros a H; simpl in H; [constructor|].
  unfold Machine.correct_step at 1, Machine.iadd_from in H. cbn [fst snd] in H.
  destruct (Dtype.fits dt _) eqn:Hfit; cbn [bind ret raise] in H; [|done].
  constructor; [done | by eapply IH].
Qed.

Lemma machine_fold_error dt ps a e :
  foldM (Machine.correct_step dt) a ps = inl e -> e = OverflowError.
Proof.
  revert a. induction ps as [|[i r] ps IH]; intros a H; simpl in H; [done|].
  unfold Machine.correct_step at 1, Machine.iadd_from in H. cbn [fst snd] in H.
  destruct (Dtype.fits dt _); cbn [bind ret raise] in H.
  - by eapply IH.
  - by inversion H.
Qed.

Lemma enumerate_bound {A} (l : list A) :
  Forall (fun p => (p.1 < length l)%nat) (Np.enumerate l).
Proof.
  unfold Np.enumerate. apply Forall_forall. intros [i x] [k Hk]%list_elem_of_lookup.
  apply lookup_zip_with_Some in Hk as (i' & x' & Heq & Hi & Hx).
  inversion Heq; subst. apply lookup_seq in Hi as [-> Hlt]. simpl. lia.
Qed.

Lemma machine_correct_timestamps_returns dt ts :
  2 ^ 30 * Z.of_nat (length (reset_indices ts)) <= Dtype.max dt ->
  exists out, Machine.correct_timestamps dt ts = inr out /\
              length out = length ts.
Proof.
  intros Hfit.
  destruct (machine_fold_returns dt (Np.enumerate (reset_indices ts)) ts) as [out Hout].
  { eapply Forall_impl; [apply enumerate_bound|]. intros [i r] Hi. simpl in *.
    change increment with (2 ^ 30). nia. }
  exists out. split; [done|]. by eapply machine_fold_length.
Qed.

End MachineTimestamps.




(** X1. What the loop computes on an array whose element type holds the
    sums: from its [k]-th reset on, an entry carries
    [1 + 2 + ... + k = k (k + 1) / 2] clock cycles. *)
Theorem correct_timestamps_fits_offset (dt : dtype) (ts : list Z) :
  Forall (fun t => 0 <= t < 2 ^ 30) ts ->
  2 ^ 30 * (triangle (length (reset_indices ts)) + 1) <= Dtype.max dt + 1 ->
  exists out, Machine.correct_timestamps dt ts = inr out /\
    forall j, out !! j
              = (fun x => x + increment * triangle (resets_upto ts j)) <$> ts !! j.
Proof.
  intros Hts Hfit. exists (correct_timestamps ts).
  split; [by apply machine_correct_timestamps_fits|].
  intros j. apply correct_timestamps_offset.
Qed.

Lemma correct_timestamps_fits_offset_witness :
  exists out, Machine.correct_timestamps uint32 [3; 1; 0; 5] = inr out /\
    forall j, out !! j
              = (fun x => x + increment * triangle (resets_upto [3; 1; 0; 5] j))
                  <$> [3; 1; 0; 5] !! j.
Proof.
  apply correct_timestamps_fits_offset.
  - repeat constructor; lia.
  - vm_compute. discriminate.
Defined.

(** X24. The correction returns exactly when the integer of its last turn,
    [2^30] times the number of resets, fits the element type of the array;
    otherwise it raises [OverflowError] (NumPy 2), whatever the entries
    are. *)
Theorem correct_timestamps_overflow (dt : dtype) (ts : list Z) :
  (2 ^ 30 * Z.of_nat (length (reset_indices ts)) <= Dtype.max dt ->
   exists out, Machine.correct_timestamps dt ts = inr out /\
               length out = length ts) /\
  (Dtype.max dt < 2 ^ 30 * Z.of_nat (length (reset_indices ts)) ->
   Machine.correct_timestamps dt ts = raise OverflowError).
Proof.
  split; [apply machine_correct_timestamps_returns|].
  intros Hbig. unfold Machine.correct_timestamps.
  destruct (foldM _ _ _) as [e|out] eqn:Hfold.
  - by rewrite (machine_fold_error _ _ _ _ Hfold).
  - exfalso. apply machine_fold_inv_fits in Hfold.
    destruct (reset_indices ts) as [|r0 R] eqn:HR using rev_ind.
    + simpl in Hbig. pose proof (dtype_min_nonpos dt).
      assert (0 <= Dtype.max dt) by (by destruct dt). lia.
    + clear IHR. rewrite Forall_forall in Hfold.
      assert ((length R, r0) ∈ Np.enumerate (R ++ [r0])) as Hin.
      { apply enumerate_elem. by rewrite list_lookup_middle. }
      specialize (Hfold _ Hin). simpl in Hfold.
      apply dtype_fits_spec in Hfold.
      rewrite length_app in Hbig. simpl in Hbig.
      change increment with (2 ^ 30) in Hfold. lia.
Qed.

(** Signed 32-bit entries do not hold the [2 * 2^30] of a second reset. *)
Lemma correct_timestamps_overflow_witness :
  Machine.correct_timestamps int32 [3; 1; 0; 5] = raise OverflowError.
Proof.
  apply (proj2 (correct_timestamps_overflow int32 [3; 1; 0; 5])).
  vm_compute. reflexivity.
Defined.

(** ** Event construction *)

Section Events.

Implicit Types (w : waveform_t) (ws : matrix) (t : Z) (ev : DigitizerEvent).

Lemma Qmin_cases (x y : Q) : Qmin x y = x \/ Qmin x y = y.
Proof.
  unfold Qmin, GenericMinMax.gmin. destruct (x ?= y)%Q; auto.
Qed.

Lemma foldl_Qmin_elem (x : Q) (l : list Q) : foldl Qmin x l ∈ x :: l.
Proof.
  revert x. induction l as [|y l IH]; intros x; simpl.
  - apply list_elem_of_here.
  - specialize (IH (Qmin x y)).
    apply elem_of_cons in IH as [-> | IH].
    + destruct (Qmin_cases x y) as [-> | ->].
      * apply list_elem_of_here.
      * apply list_elem_of_further, list_elem_of_here.
    + by do 2 apply list_elem_of_further.
Qed.

Lemma foldl_Qmin_le_init (x : Q) (l : list Q) : (foldl Qmin x l <= x)%Q.
Proof.
  revert x. induction l as [|y l IH]; intros x; simpl.
  - apply Qle_refl.
  - eapply Qle_trans; [apply IH | apply Q.le_min_l].
Qed.

Lemma foldl_Qmin_lower (x : Q) (l : list Q) :
  Forall (fun y => foldl Qmin x l <= y)%Q (x :: l).
Proof.
  revert x. induction l as [|y l IH]; intros x; simpl.
  - constructor; [apply Qle_refl | constructor].
  - specialize (IH (Qmin x y)).
    apply Forall_cons in IH as [Hm Hl].
    constructor; [|constructor]; [..|done].
    + eapply Qle_trans; [apply Hm | apply Q.le_min_l].
    + eapply Qle_trans; [apply Hm | apply Q.le_min_r].
Qed.

Lemma new_DigitizerEvent_inv w t ev :
  new_DigitizerEvent w t = inr ev ->
  w <> [] /\ waveform ev = w /\ timestamp ev = t.
Proof.
  unfold new_DigitizerEvent. destruct w as [|x w]; simpl; [done|].
  intros [= <-]. done.
Qed.

Lemma new_DigitizerEvent_total w t :
  w <> [] -> exists ev, new_DigitizerEvent w t = inr ev.
Proof. destruct w as [|x w]; [done|]. intros _. by eexists. Qed.

End Events.

(** ** The cyclic timestamp cursor *)

Section Cycle.

Implicit Types (ts : list Z) (it : cycle) (p j : nat).

Lemma new_cycle_drawn ts : drawn ts 0 (new_cycle ts).
Proof. exists 0%nat. repeat split; simpl; lia. Qed.

Lemma next_cycle_at ts p it :
  ts <> [] -> cycle_at ts p it ->
  exists x it', next it = inr (x, it') /\
    ts !! (p mod length ts)%nat = Some x /\
    cycle_at ts (S (p mod length ts)) it'.
Proof.
  intros Hne (Hp & Hpend & Hsaved).
  assert (length ts <> 0)%nat as Hlen by (by destruct ts).
  destruct (decide (p < length ts)%nat) as [Hlt | Hge].
  - destruct (lookup_lt_is_Some_2 ts p Hlt) as [x Hx].
    rewrite Nat.mod_small by done.
    exists x. eexists. unfold next.
    rewrite Hpend, (drop_S _ _ _ Hx). split; [reflexivity|].
    split; [done|]. repeat split; simpl; [lia|].
    rewrite Hsaved. destruct (first_pass it); [|done].
    by rewrite (take_S_r _ _ _ Hx).
  - assert (p = length ts) as -> by lia.
    rewrite Nat.Div0.mod_same.
    assert (saved it = ts) as Hs.
    { rewrite Hsaved. destruct (first_pass it); [|done]. by rewrite take_ge. }
    destruct ts as [|x ts]; [done|].
    exists x. eexists. unfold next.
    rewrite Hpend, drop_all, Hs. split; [reflexivity|].
    split; [done|]. repeat split; simpl; lia.
Qed.

(** A draw from a non-empty array succeeds, yields the entry under the
    cursor and moves the cursor on by one. *)
Lemma next_drawn ts j it :
  ts <> [] -> drawn ts j it ->
  exists x it', next it = inr (x, it') /\
    ts !! (j mod length ts)%nat = Some x /\ drawn ts (S j) it'.
Proof.
  intros Hne (p & Hmod & Hat).
  destruct (next_cycle_at ts p it Hne Hat) as (x & it' & Hnext & Hx & Hat').
  exists x, it'. split; [done|]. rewrite <- Hmod. split; [done|].
  exists (S (p mod length ts)). split; [|done].
  rewrite Hmod.
  replace (S (j mod length ts)) with (j mod length ts + 1)%nat by lia.
  rewrite Nat.Div0.add_mod_idemp_l. f_equal. lia.
Qed.

(** A draw from the cycle over an empty array raises. *)
Lemma next_empty it :
  pending it = [] -> saved it = [] -> next it = raise StopIteration.
Proof. unfold next. by intros -> ->. Qed.

Lemma drawn_empty j it : drawn [] j it -> pending it = [] /\ saved it = [].
Proof.
  intros (p & _ & Hp & Hpend & Hsaved).
  rewrite Hpend, Hsaved, drop_nil, take_nil. by destruct (first_pass it).
Qed.

Lemma next_drawn_inv ts j it x it' :
  drawn ts j it -> next it = inr (x, it') ->
  ts !! (j mod length ts)%nat = Some x /\ drawn ts (S j) it'.
Proof.
  intros Hd Hnext. destruct (decide (ts = [])) as [-> | Hne].
  - apply drawn_empty in Hd as [Hp Hs].
    by rewrite next_empty in Hnext.
  - destruct (next_drawn ts j it Hne Hd) as (x' & it'' & Hn & Hx & Hd').
    rewrite Hn in Hnext. by inversion Hnext; subst.
Qed.

End Cycle.

(** ** The dictionary of events *)

Section EventsDict.

Implicit Types (ts : list Z) (it : cycle) (ws : matrix)
  (pairs : list (Z * matrix)) (d : gmap Z (list DigitizerEvent)).

Lemma events_of_inv ts j ws it evs it' :
  drawn ts j it -> events_of ws it = inr (evs, it') ->
  drawn ts (j + length ws) it' /\
  waveform <$> evs = ws /\
  forall k ev, evs !! k = Some ev ->
    ts !! ((j + k) mod length ts)%nat = Some (timestamp ev).
Proof.
  revert j it evs it'.
  induction ws as [|w ws IH]; intros j it evs it' Hd H; simpl in H.
  - inversion H; subst. rewrite Nat.add_0_r. by repeat split.
  - destruct (next it) as [e|[x it1]] eqn:Hn; simpl in H; [done|].
    destruct (new_DigitizerEvent w x) as [e|ev0] eqn:Hev; simpl in H; [done|].
    destruct (events_of ws it1) as [e|[evs1 it2]] eqn:Hrest; simpl in H; [done|].
    inversion H; subst evs it'; clear H.
    destruct (next_drawn_inv _ _ _ _ _ Hd Hn) as [Hx Hd1].
    destruct (new_DigitizerEvent_inv _ _ _ Hev) as (_ & Hw & Ht).
    destruct (IH _ _ _ _ Hd1 Hrest) as (Hd2 & Hws & Hts).
    split; [|split].
    + simpl. by replace (j + S (length ws))%nat with (S j + length ws)%nat by lia.
    + rewrite fmap_cons. by rewrite Hw, Hws.
    + intros [|k] ev Hk; simpl in Hk.
      * inversion Hk; subst ev. by rewrite Nat.add_0_r, Ht.
      * replace (j + S k)%nat with (S j + k)%nat by lia. by apply Hts.
Qed.

Lemma events_of_total ts j ws it :
  ts <> [] -> drawn ts j it -> nonempty_waveforms ws ->
  exists evs it', events_of ws it = inr (evs, it').
Proof.
  intros Hne. revert j it.
  induction ws as [|w ws IH]; intros j it Hd Hws; simpl.
  - by eexists _, _.
  - apply Forall_cons in Hws as [Hw Hws].
    destruct (next_drawn ts j it Hne Hd) as (x & it1 & Hn & _ & Hd1).
    rewrite Hn. simpl.
    destruct (new_DigitizerEvent_total w x Hw) as [ev Hev].
    rewrite Hev. simpl.
    destruct (IH _ _ Hd1 Hws) as (evs & it2 & Hrest).
    rewrite Hrest. simpl. by eexists _, _.
Qed.

Lemma events_before_0 (l : list matrix) : events_before l 0 = 0%nat.
Proof. done. Qed.

Lemma events_before_S ws (l : list matrix) i :
  events_before (ws :: l) (S i) = (length ws + events_before l i)%nat.
Proof. done. Qed.

Lemma fill_events_dict_inv ts pairs d0 it j d it' :
  NoDup pairs.*1 -> drawn ts j it ->
  fill_events_dict pairs d0 it = inr (d, it') ->
  (forall ch, ch ∉ pairs.*1 -> d !! ch = d0 !! ch) /\
  (forall i ch ws, pairs !! i = Some (ch, ws) ->
     exists evs, d !! ch = Some evs /\ waveform <$> evs = ws /\
       forall k ev, evs !! k = Some ev ->
         ts !! ((j + events_before pairs.*2 i + k) mod length ts)%nat
         = Some (timestamp ev)).
Proof.
  revert d0 it j.
  induction pairs as [|[ch0 ws0] pairs IH]; intros d0 it j Hnd Hd H; simpl in H.
  - inversion H; subst. split; [done|]. by intros i ch ws.
  - destruct (events_of ws0 it) as [e|[evs0 it1]] eqn:Hev; simpl in H; [done|].
    rewrite fmap_cons in Hnd. apply NoDup_cons in Hnd as [Hfresh Hnd].
    destruct (events_of_inv _ _ _ _ _ _ Hd Hev) as (Hd1 & Hws0 & Hts0).
    destruct (IH _ _ _ Hnd Hd1 H) as [Hout Hin].
    split.
    + intros ch Hch. rewrite fmap_cons in Hch.
      apply not_elem_of_cons in Hch as [Hne Hch].
      rewrite (Hout ch Hch). by rewrite lookup_insert_ne.
    + intros [|i] ch ws Hi; simpl in Hi.
      * inversion Hi; subst ch ws. exists evs0.
        rewrite (Hout ch0 Hfresh), lookup_insert_eq.
        split; [done|]. split; [done|].
        intros k ev Hk. rewrite events_before_0, Nat.add_0_r. by apply Hts0.
      * destruct (Hin i ch ws Hi) as (evs & Hlook & Hws & Hts).
        exists evs. split; [done|]. split; [done|].
        intros k ev Hk. rewrite fmap_cons, events_before_S.
        replace (j + (length ws0 + events_before pairs.*2 i) + k)%nat
          with (j + length ws0 + events_before pairs.*2 i + k)%nat by lia.
        by apply Hts.
Qed.

Lemma fill_events_dict_total ts pairs d0 it j :
  ts <> [] -> drawn ts j it ->
  Forall (fun p => nonempty_waveforms p.2) pairs ->
  exists d it', fill_events_dict pairs d0 it = inr (d, it').
Proof.
  intros Hne. revert d0 it j.
  induction pairs as [|[ch0 ws0] pairs IH]; intros d0 it j Hd Hall; simpl.
  - by eexists _, _.
  - apply Forall_cons in Hall as [Hws0 Hall].
    destruct (events_of_total ts j ws0 it Hne Hd Hws0) as (evs & it1 & Hev).
    rewrite Hev. simpl.
    destruct (events_of_inv _ _ _ _ _ _ Hd Hev) as (Hd1 & _).
    by eapply IH.
Qed.

(** With nothing to cycle over, the first waveform met aborts the loop. *)
Lemma fill_events_dict_empty pairs d0 it :
  pending it = [] -> saved it = [] ->
  (exists ch ws, (ch, ws) ∈ pairs /\ ws <> []) ->
  fill_events_dict pairs d0 it = raise StopIteration.
Proof.
  intros Hp Hs. revert d0.
  induction pairs as [|[ch0 ws0] pairs IH]; intros d0 (ch & ws & Hin & Hne).
  - by apply not_elem_of_nil in Hin.
  - simpl. destruct ws0 as [|w ws0]; simpl.
    + apply IH. exists ch, ws. split; [|done].
      apply elem_of_cons in Hin as [Heq | Hin]; [|done].
      by inversion Heq; subst.
    + by rewrite next_empty.
Qed.

Lemma zip_lookup_Some {A B} (l : list A) (k : list B) i x y :
  l !! i = Some x -> k !! i = Some y -> zip l k !! i = Some (x, y).
Proof. intros Hx Hy. rewrite lookup_zip_with, Hx. simpl. by rewrite Hy. Qed.

End EventsDict.

Lemma create_events_dict_inv (data : RawDataContainer) d :
  container_ok data ->
  create_events_dict data = inr d ->
  (forall ch, ch ∉ channels data -> d !! ch = None) /\
  (forall i ch ws, channels data !! i = Some ch -> waveforms data !! i = Some ws ->
     exists evs, d !! ch = Some evs /\ waveform <$> evs = ws /\
       forall k ev, evs !! k = Some ev ->
         timestamps data
           !! ((events_before (waveforms data) i + k) mod length (timestamps data))%nat
         = Some (timestamp ev)).
Proof.
  intros [Hnd Hlen] H. unfold create_events_dict in H.
  destruct (fill_events_dict _ _ _) as [e|[d' it']] eqn:Hfill; simpl in H; [done|].
  inversion H; subst d'; clear H.
  pose proof (fst_zip (channels data) (waveforms data)) as Hfst.
  pose proof (snd_zip (channels data) (waveforms data)) as Hsnd.
  destruct (fill_events_dict_inv (timestamps data) _ _ _ 0 _ _
              ltac:(by rewrite Hfst by lia) (new_cycle_drawn _) Hfill)
    as [Hout Hin].
  rewrite Hfst in Hout by lia. rewrite Hsnd in Hin by lia.
  split.
  - intros ch Hch. by rewrite (Hout ch Hch).
  - intros i ch ws Hc Hw.
    apply (Hin i ch ws). by apply zip_lookup_Some.
Qed.

Lemma create_events_dict_total (data : RawDataContainer) :
  timestamps data <> [] ->
  Forall nonempty_waveforms (waveforms data) ->
  exists d, create_events_dict data = inr d.
Proof.
  intros Hne Hall. unfold create_events_dict.
  destruct (fill_events_dict_total (timestamps data)
              (zip (channels data) (waveforms data)) ∅
              (new_cycle (timestamps data)) 0 Hne (new_cycle_drawn _))
    as (d & it' & ->).
  - apply Forall_forall. intros [ch ws] Hin. simpl.
    rewrite Forall_forall in Hall. apply Hall.
    apply list_elem_of_lookup in Hin as [i Hi].
    apply lookup_zip_with_Some in Hi as (x & y & Heq & _ & Hy).
    inversion Heq; subst. apply list_elem_of_lookup. eauto.
  - by eexists.
Qed.

(** C3. The events receive their timestamps from one cursor that cycles
    over the timestamp array: with the channels taken in the container's
    order and the waveforms of a channel in capture order, the event of the
    [k]-th waveform of the [i]-th channel is the [j]-th built overall, for
    [j = events_before (waveforms data) i + k], and carries
    [timestamps[j mod len(timestamps)]].  One channel with three waveforms
    over the timestamps [[100; 200]] gets [[100; 200; 100]]. *)
Theorem create_events_dict_cyclic_timestamps :
  (forall (data : RawDataContainer) (d : gmap Z (list DigitizerEvent)),
     timestamps data <> [] ->
     container_ok data ->
     create_events_dict data = inr d ->
     forall i ch ws,
       channels data !! i = Some ch -> waveforms data !! i = Some ws ->
       exists evs, d !! ch = Some evs /\ length evs = length ws /\
         forall k ev, evs !! k = Some ev ->
           timestamps data
             !! ((events_before (waveforms data) i + k)
                   mod length (timestamps data))%nat
           = Some (timestamp ev)) /\
  (forall (ch : Z) (w1 w2 w3 : waveform_t),
     w1 <> [] -> w2 <> [] -> w3 <> [] ->
     exists d evs,
       create_events_dict
         {| channels := [ch]; waveforms := [[w1; w2; w3]];
            timestamps := [100; 200] |} = inr d /\
       d !! ch = Some evs /\
       timestamp <$> evs = [100; 200; 100]).
Proof.
  split.
  - intros data d _ Hok Hd i ch ws Hch Hws.
    destruct (create_events_dict_inv data d Hok Hd) as [_ Hin].
    destruct (Hin i ch ws Hch Hws) as (evs & Hlook & Hwf & Hts).
    exists evs. split; [done|]. split; [|done].
    by rewrite <- Hwf, length_fmap.
  - intros ch [|x1 w1] [|x2 w2] [|x3 w3] H1 H2 H3; try done.
    eexists _, _. split; [reflexivity|].
    split; [apply lookup_insert_eq | reflexivity].
Qed.

Lemma create_events_dict_cyclic_timestamps_witness :
  (exists evs,
     ({[ 7 := [ {| waveform := [1; -2]%Q; timestamp := 100; amplitude := 2 * -1 |};
                {| waveform := [3]%Q; timestamp := 200; amplitude := 3 * -1 |} ] ;
         9 := [ {| waveform := [0; 5]%Q; timestamp := 100; amplitude := 0 * -1 |} ]
      ]} : gmap Z (list DigitizerEvent)) !! 9 = Some evs /\
     length evs = 1%nat /\
     forall k ev, evs !! k = Some ev ->
       [100; 200] !! ((2 + k) mod 2)%nat = Some (timestamp ev)) /\
  (exists d evs,
     create_events_dict
       {| channels := [7]; waveforms := [[[1]; [2]; [3]]]%Q;
          timestamps := [100; 200] |} = inr d /\
     d !! 7 = Some evs /\
     timestamp <$> evs = [100; 200; 100]).
Proof.
  split.
  - apply (proj1 create_events_dict_cyclic_timestamps
             {| channels := [7; 9];
                waveforms := [[[1; -2]; [3]]; [[0; 5]]]%Q;
                timestamps := [100; 200] |} _ ltac:(discriminate)
             ltac:(split; [exact (bool_decide_unpack (NoDup [7; 9]) I) | reflexivity])
             ltac:(vm_compute; reflexivity) 1%nat 9 [[0; 5]]%Q
             ltac:(reflexivity) ltac:(reflexivity)).
  - apply (proj2 create_events_dict_cyclic_timestamps 7 [1]%Q [2]%Q [3]%Q);
      discriminate.
Defined.

(** C5. In the mapping built from a container, every channel of the
    container has its list of events, and no other number has one; the list
    of a channel is as long as the channel's matrix has waveforms, and its
    [k]-th event holds the [k]-th waveform.  The mapping is built whenever
    there is a timestamp to draw and no waveform is empty. *)
Theorem create_events_dict_per_channel (data : RawDataContainer) :
  container_ok data ->
  (timestamps data <> [] -> Forall nonempty_waveforms (waveforms data) ->
   exists d, create_events_dict data = inr d) /\
  (forall d, create_events_dict data = inr d ->
     (forall ch, is_Some (d !! ch) <-> ch ∈ channels data) /\
     (forall i ch ws,
        channels data !! i = Some ch -> waveforms data !! i = Some ws ->
        exists evs, d !! ch = Some evs /\ length evs = length ws /\
          forall k w, ws !! k = Some w ->
            exists ev, evs !! k = Some ev /\ waveform ev = w)).
Proof.
  intros Hok. split; [apply create_events_dict_total|].
  intros d Hd.
  destruct (create_events_dict_inv data d Hok Hd) as [Hout Hin].
  assert (Hrows : forall i ch ws,
    channels data !! i = Some ch -> waveforms data !! i = Some ws ->
    exists evs, d !! ch = Some evs /\ waveform <$> evs = ws).
  { intros i ch ws Hch Hws.
    destruct (Hin i ch ws Hch Hws) as (evs & ? & ? & _). eauto. }
  split.
  - intros ch. split.
    + intros Hsome. destruct (decide (ch ∈ channels data)) as [|Hno]; [done|].
      rewrite (Hout ch Hno) in Hsome. by destruct Hsome.
    + intros Hch. apply list_elem_of_lookup in Hch as [i Hi].
      destruct Hok as [_ Hlen].
      destruct (lookup_lt_is_Some_2 (waveforms data) i) as [ws Hws].
      { rewrite <- Hlen. by eapply lookup_lt_Some. }
      destruct (Hrows i ch ws Hi Hws) as (evs & -> & _). by eexists.
  - intros i ch ws Hch Hws.
    destruct (Hrows i ch ws Hch Hws) as (evs & Hlook & Hwf).
    exists evs. split; [done|]. split.
    + by rewrite <- Hwf, length_fmap.
    + intros k w Hk. rewrite <- Hwf, list_lookup_fmap in Hk.
      destruct (evs !! k) as [ev|]; [|done].
      exists ev. split; [done|]. by inversion Hk.
Qed.

Lemma create_events_dict_per_channel_witness :
  let data := {| channels := [7; 9];
                 waveforms := [[[1; -2]; [3]]; [[0; 5]]]%Q;
                 timestamps := [100; 200] |} in
  container_ok data /\
  (timestamps data <> [] -> Forall nonempty_waveforms (waveforms data) ->
   exists d, create_events_dict data = inr d) /\
  (forall d, create_events_dict data = inr d ->
     (forall ch, is_Some (d !! ch) <-> ch ∈ channels data) /\
     (forall i ch ws,
        channels data !! i = Some ch -> waveforms data !! i = Some ws ->
        exists evs, d !! ch = Some evs /\ length evs = length ws /\
          forall k w, ws !! k = Some w ->
            exists ev, evs !! k = Some ev /\ waveform ev = w)).
Proof.
  intros data.
  assert (Hok : container_ok data)
    by (split; [exact (bool_decide_unpack (NoDup [7; 9]) I) | reflexivity]).
  split; [exact Hok|].
  exact (create_events_dict_per_channel data Hok).
Defined.

(** C6. An event built from a non-empty waveform holds, from its
    construction on, the amplitude [-1] times the lowest sample of the
    waveform; the amplitude is not negative when the lowest sample is not
    positive. *)
Theorem new_DigitizerEvent_amplitude (w : waveform_t) (t : Z) :
  w <> [] ->
  exists ev lowest,
    new_DigitizerEvent w t = inr ev /\
    waveform ev = w /\ timestamp ev = t /\
    lowest ∈ w /\ Forall (fun x => lowest <= x)%Q w /\
    (amplitude ev == -1 * lowest)%Q /\
    ((lowest <= 0)%Q -> (0 <= amplitude ev)%Q).
Proof.
  destruct w as [|x w]; [done|]. intros _.
  eexists _, (foldl Qmin x w). split; [reflexivity|]. simpl.
  split; [done|]. split; [done|].
  split; [apply foldl_Qmin_elem|].
  split; [apply foldl_Qmin_lower|].
  split; [ring | intros; lra].
Qed.

Lemma new_DigitizerEvent_amplitude_witness :
  [1; -2; 0]%Q <> [] /\
  exists ev lowest,
    new_DigitizerEvent [1; -2; 0]%Q 100 = inr ev /\
    waveform ev = [1; -2; 0]%Q /\ timestamp ev = 100 /\
    lowest ∈ [1; -2; 0]%Q /\ Forall (fun x => lowest <= x)%Q [1; -2; 0]%Q /\
    (amplitude ev == -1 * lowest)%Q /\
    ((lowest <= 0)%Q -> (0 <= amplitude ev)%Q).
Proof.
  split; [discriminate|].
  apply new_DigitizerEvent_amplitude. discriminate.
Defined.

(** C8, as the spec words it, fails: the error of an empty waveform is not
    an [InvalidWaveformError]. *)
Lemma new_DigitizerEvent_empty_not_InvalidWaveformError :
  new_DigitizerEvent [] 0 <> raise InvalidWaveformError.
Proof. discriminate. Qed.

(** C8, amended. Building an event from an empty waveform fails where the
    amplitude is derived: the minimum of an empty array raises
    [ValueError], and the constructor lets it through. *)
Theorem new_DigitizerEvent_empty :
  amin [] = raise ValueError /\
  forall t : Z, new_DigitizerEvent [] t = raise ValueError.
Proof. split; reflexivity. Qed.

(** C10. With an empty timestamp array and a channel that has a waveform,
    no mapping is returned: the first draw from the cycle raises
    [StopIteration], which ends the construction. *)
Theorem create_events_dict_no_timestamps (data : RawDataContainer) :
  timestamps data = [] ->
  (exists i ch ws,
     channels data !! i = Some ch /\ waveforms data !! i = Some ws /\ ws <> []) ->
  create_events_dict data = raise StopIteration.
Proof.
  intros Hts (i & ch & ws & Hch & Hws & Hne).
  unfold create_events_dict.
  rewrite fill_events_dict_empty; [done | by rewrite Hts.. |].
  exists ch, ws. split; [|done].
  apply list_elem_of_lookup. exists i. by apply zip_lookup_Some.
Qed.

Lemma create_events_dict_no_timestamps_witness :
  create_events_dict
    {| channels := [7; 9]; waveforms := [[]; [[1; -2]]]%Q; timestamps := [] |}
  = raise StopIteration.
Proof.
  apply create_events_dict_no_timestamps; [reflexivity|].
  exists 1%nat, 9, [[1; -2]]%Q. repeat split. discriminate.
Defined.

(** ** Baseline subtraction and conversion to volts *)

Section Waveforms.

Implicit Types (l w raw : waveform_t) (m : matrix).

Lemma lookup_map {A B} (f : A -> B) (l : list A) j :
  map f l !! j = f <$> l !! j.
Proof. exact (list_lookup_fmap f l j). Qed.

Lemma insert_middle {A} (pre rest : list A) (x y : A) :
  <[length pre := y]> (pre ++ x :: rest) = pre ++ y :: rest.
Proof. induction pre as [|a pre IH]; simpl; [done | by rewrite IH]. Qed.

(** The two corrections of a matrix, sample by sample, in whatever
    arithmetic the samples have: the baseline is the mean of the first [n]
    raw samples of the row, it is subtracted first, the division comes
    second. *)
Lemma div_sub_mean_cols {F} (mean_ : list F -> F) (sub div : F -> F -> F)
    (n : nat) (c : F) (rows : list (list F)) :
  Np.div_scalar div (Np.sub_col sub rows (Np.mean_cols mean_ n rows)) c
  = map (fun row => map (fun x => div (sub x (mean_ (take n row))) c) row) rows.
Proof.
  unfold Np.div_scalar, Np.sub_col, Np.mean_cols.
  induction rows as [|row rows IH]; simpl; [done|].
  by rewrite IH, map_map.
Qed.

(** The loops of [Machine] over the channels. *)
Lemma foldM_update_at_machine {A} (f : A -> result A) (pre rest rest' : list A) :
  mapM f rest = inr rest' ->
  foldM (Machine.update_at f) (pre ++ rest) (seq (length pre) (length rest))
  = inr (pre ++ rest').
Proof.
  revert pre rest'. induction rest as [|x rest IH]; intros pre rest' H; simpl in *.
  - inversion H. done.
  - destruct (f x) as [e|y] eqn:Hy; simpl in H; [done|].
    destruct (mapM f rest) as [e|ys] eqn:Hys; simpl in H; [done|].
    inversion H; subst rest'; clear H.
    unfold Machine.update_at at 1.
    rewrite (list_lookup_middle pre rest x (length pre)) by done.
    rewrite Hy. cbn [bind ret]. rewrite insert_middle.
    specialize (IH (pre ++ [y]) ys eq_refl).
    rewrite length_app, Nat.add_1_r, <- !app_assoc in IH. exact IH.
Qed.

Lemma machine_for_each_channel_ok f (c : RawDataContainer) ws' :
  length (channels c) = length (waveforms c) ->
  mapM f (waveforms c) = inr ws' ->
  Machine.for_each_channel f c
  = inr {| channels := channels c; waveforms := ws'; timestamps := timestamps c |}.
Proof.
  intros Hlen Hws. unfold Machine.for_each_channel. rewrite Hlen.
  pose proof (foldM_update_at_machine f [] (waveforms c) ws' Hws) as Hfold.
  simpl in Hfold. by rewrite Hfold.
Qed.

Lemma mapM_ret {A B} (f : A -> result B) (g : A -> B) (l : list A) :
  Forall (fun x => f x = inr (g x)) l -> mapM f l = inr (map g l).
Proof.
  induction 1 as [|x l Hx _ IH]; simpl; [done|]. by rewrite Hx, IH.
Qed.

Lemma machine_preprocess_ok (st : sample_type) (dt : dtype)
    (c : RawDataContainer) (out : list Z) :
  floating st = true ->
  length (channels c) = length (waveforms c) ->
  Forall (fun m => rectangular m = true) (waveforms c) ->
  Machine.correct_timestamps dt (timestamps c) = inr out ->
  Machine.preprocess st dt c
  = inr {| channels := channels c;
           waveforms := map (map (volts_in st)) (waveforms c);
           timestamps := out |}.
Proof.
  intros Hfl Hlen Hrect Hts.
  unfold Machine.preprocess, Machine.preprocess_raw_data.
  unfold Machine.subtract_baseline.
  rewrite (machine_for_each_channel_ok _ c
             (map (fun m => Np.sub_col (fsub st) m (Np.mean_cols (fmean st) 50 m))
                  (waveforms c))); [|done|].
  2:{ apply mapM_ret. eapply Forall_impl; [exact Hrect|].
      intros m Hm. simpl in Hm. by rewrite Hm, Hfl. }
  cbn [bind ret]. unfold Machine.turn_into_volts.
  erewrite machine_for_each_channel_ok;
    [| cbn [channels waveforms]; by rewrite length_map |].
  2:{ cbn [waveforms]. apply mapM_ret. apply Forall_forall. intros m _.
      by rewrite Hfl. }
  cbn [bind ret]. unfold Machine.correct_timestamps_of. cbn [timestamps].
  rewrite Hts. cbn [bind ret channels waveforms]. do 2 f_equal.
  rewrite map_map. apply map_ext. intros m.
  by rewrite div_sub_mean_cols.
Qed.


Lemma foldM_update_at_machine_inv {A} (f : A -> result A) (pre rest r : list A) :
  foldM (Machine.update_at f) (pre ++ rest) (seq (length pre) (length rest))
  = inr r ->
  exists rest', mapM f rest = inr rest' /\ r = pre ++ rest'.
Proof.
  revert pre. induction rest as [|x rest IH]; intros pre H; simpl in *.
  - inversion H. exists []. by rewrite !app_nil_r.
  - unfold Machine.update_at at 1 in H.
    rewrite (list_lookup_middle pre rest x (length pre)) in H by done.
    destruct (f x) as [e|y]; cbn [bind ret] in H; [done|].
    rewrite insert_middle in H.
    specialize (IH (pre ++ [y])).
    rewrite length_app, Nat.add_1_r, <- !app_assoc in IH.
    destruct (IH H) as (rest' & -> & ->). exists (y :: rest').
    split; [done | by rewrite <- app_assoc].
Qed.

Lemma machine_for_each_channel_inv f (c c' : RawDataContainer) :
  length (channels c) = length (waveforms c) ->
  Machine.for_each_channel f c = inr c' ->
  exists ws', mapM f (waveforms c) = inr ws' /\
    c' = {| channels := channels c; waveforms := ws'; timestamps := timestamps c |}.
Proof.
  intros Hlen H. unfold Machine.for_each_channel in H. rewrite Hlen in H.
  destruct (foldM _ _ _) as [e|ws] eqn:Hfold; simpl in H; [done|].
  destruct (foldM_update_at_machine_inv f [] (waveforms c) ws Hfold)
    as (ws' & Hws & ->).
  exists ws'. split; [done|]. by inversion H.
Qed.

Lemma mapM_partial {A B} (f : A -> result B) (g : A -> B) (l : list A) ys :
  (forall x y, f x = inr y -> y = g x) ->
  mapM f l = inr ys -> ys = map g l.
Proof.
  intros Hfg. revert ys. induction l as [|x l IH]; intros ys H; simpl in H.
  - by inversion H.
  - destruct (f x) as [e|y] eqn:Hy; simpl in H; [done|].
    destruct (mapM f l) as [e|ys'] eqn:Hys; simpl in H; [done|].
    inversion H; subst ys. simpl. by rewrite (Hfg x y Hy), (IH ys' eq_refl).
Qed.

Lemma machine_preprocess_inv (st : sample_type) (dt : dtype)
    (c c' : RawDataContainer) :
  length (channels c) = length (waveforms c) ->
  Machine.preprocess st dt c = inr c' ->
  exists out, Machine.correct_timestamps dt (timestamps c) = inr out /\
    c' = {| channels := channels c;
            waveforms := map (map (volts_in st)) (waveforms c);
            timestamps := out |}.
Proof.
  intros Hlen H. unfold Machine.preprocess, Machine.preprocess_raw_data in H.
  destruct (Machine.subtract_baseline st c) as [e|c1] eqn:H1; simpl in H; [done|].
  destruct (Machine.turn_into_volts st c1) as [e|c2] eqn:H2; simpl in H; [done|].
  apply machine_for_each_channel_inv in H1 as (ws1 & Hws1 & ->); [|done].
  apply (mapM_partial _
           (fun m => Np.sub_col (fsub st) m (Np.mean_cols (fmean st) 50 m)))
    in Hws1.
  2:{ intros m y Hy. destruct (rectangular m); simpl in Hy; [|done].
      destruct (floating st); simpl in Hy; [|done]. by inversion Hy. }
  subst ws1.
  apply machine_for_each_channel_inv in H2 as (ws2 & Hws2 & ->);
    [|simpl; by rewrite length_map].
  simpl in Hws2.
  apply (mapM_partial _ (fun m => Np.div_scalar (fdiv st) m 4096%Q)) in Hws2.
  2:{ intros m y Hy. destruct (floating st); simpl in Hy; [|done].
      by inversion Hy. }
  subst ws2.
  unfold Machine.correct_timestamps_of in H. simpl in H.
  destruct (Machine.correct_timestamps dt (timestamps c)) as [e|out];
    simpl in H; [done|].
  exists out. split; [done|]. inversion H. simpl. f_equal.
  rewrite map_map. apply map_ext. intros m. by rewrite div_sub_mean_cols.
Qed.

Lemma events_before_volts_in (st : sample_type) (ws : list matrix) i :
  events_before (map (map (volts_in st)) ws) i = events_before ws i.
Proof.
  unfold events_before. revert i.
  induction ws as [|m ws IH]; intros [|i]; simpl; try done.
  by rewrite IH, length_map.
Qed.

End Waveforms.




(** ** Channel discovery *)

Section Strings.

Local Open Scope string_scope.
Implicit Types (s p ds cur rest sep : string) (a c : ascii).

Lemma append_nil_l s : EmptyString +:+ s = s.
Proof. reflexivity. Qed.

Lemma append_cons a s1 s2 : String a s1 +:+ s2 = String a (s1 +:+ s2).
Proof. reflexivity. Qed.

Lemma append_nil_r s : s +:+ EmptyString = s.
Proof.
  induction s as [|a s IH]; [done | by rewrite append_cons, IH].
Qed.

Lemma append_assoc s1 s2 s3 : (s1 +:+ s2) +:+ s3 = s1 +:+ (s2 +:+ s3).
Proof.
  induction s1 as [|a s1 IH]; [done | by rewrite !append_cons, IH].
Qed.

Lemma avoids_append c s1 s2 : avoids c s1 -> avoids c s2 -> avoids c (s1 +:+ s2).
Proof.
  induction s1 as [|a s1 IH]; [done|].
  rewrite append_cons. simpl. intros [??] ?; auto.
Qed.

Lemma is_digit_range a :
  Str.is_digit a = true -> (48 <= nat_of_ascii a <= 57)%nat.
Proof.
  unfold Str.is_digit. intros H.
  apply andb_true_iff in H as [H1 H2].
  apply Nat.leb_le in H1, H2. lia.
Qed.

Lemma is_digit_neq a c :
  Str.is_digit a = true -> Str.is_digit c = false -> a <> c.
Proof. intros Ha Hc ->. congruence. Qed.

Lemma is_digit_not_space a : Str.is_digit a = true -> Str.is_space a = false.
Proof.
  intros H%is_digit_range. unfold Str.is_space.
  apply orb_false_iff. split; apply andb_false_iff; right; apply Nat.leb_gt; lia.
Qed.

Lemma all_digits_avoids c ds :
  Str.is_digit c = false -> all_digits ds = true -> avoids c ds.
Proof.
  intros Hc. induction ds as [|a ds IH]; simpl; [done|].
  intros [Ha Hds]%andb_true_iff. split; [by eapply is_digit_neq | auto].
Qed.

(** A stretch without the first character of the separator is read into
    the piece in progress. *)
Lemma split_go_avoids c sep' cur s rest :
  avoids c s ->
  Str.split_go (String c sep') 0 cur (s +:+ rest)
  = Str.split_go (String c sep') 0 (cur +:+ s) rest.
Proof.
  revert cur. induction s as [|a s IH]; intros cur Hs.
  - by rewrite append_nil_l, append_nil_r.
  - destruct Hs as [Ha Hs]. rewrite append_cons. simpl.
    destruct (decide (c = a)) as [->|_]; [done|].
    rewrite IH by done. by rewrite append_assoc, append_cons, append_nil_l.
Qed.

Lemma split_underscore ds :
  all_digits ds = true ->
  Str.split "_" ("channel" +:+ ds +:+ "_waveforms")
  = ["channel" +:+ ds; "waveforms"].
Proof.
  intros Hds. unfold Str.split.
  rewrite <- (append_assoc "channel" ds "_waveforms").
  rewrite (split_go_avoids "_" EmptyString EmptyString ("channel" +:+ ds) "_waveforms").
  - reflexivity.
  - apply (avoids_append _ "channel" ds).
    + simpl. repeat split; discriminate.
    + by apply all_digits_avoids.
Qed.

Lemma split_channel ds :
  all_digits ds = true ->
  Str.split "channel" ("channel" +:+ ds) = [EmptyString; ds].
Proof.
  intros Hds. unfold Str.split.
  rewrite !append_cons, append_nil_l. simpl. f_equal.
  pose proof (split_go_avoids "c" "hannel" EmptyString ds EmptyString
                (all_digits_avoids "c" ds eq_refl Hds)) as Hgo.
  rewrite append_nil_r, append_nil_l in Hgo. by rewrite Hgo.
Qed.

Lemma rstrip_digits ds : all_digits ds = true -> Str.rstrip ds = ds.
Proof.
  induction ds as [|a ds IH]; simpl; [done|].
  intros [Ha Hds]%andb_true_iff. rewrite IH by done.
  destruct ds; [|done]. by rewrite is_digit_not_space.
Qed.

Lemma digits_decimal acc b ds :
  all_digits ds = true -> ds <> EmptyString \/ b = true ->
  Str.digits acc b ds = Some (decimal acc ds).
Proof.
  revert acc b. induction ds as [|a ds IH]; intros acc b Hds Hb; simpl.
  - destruct Hb as [? | ->]; done.
  - simpl in Hds. apply andb_true_iff in Hds as [Ha Hds].
    rewrite Ha. apply IH; auto.
Qed.

Lemma int_digits ds :
  ds <> EmptyString -> all_digits ds = true -> Str.int ds = inr (decimal 0 ds).
Proof.
  intros Hne Hds. unfold Str.int.
  destruct ds as [|a ds]; [done|].
  pose proof Hds as Hall.
  simpl in Hds. apply andb_true_iff in Hds as [Ha Hds].
  assert (Str.lstrip (String a ds) = String a ds) as ->
    by (simpl; by rewrite is_digit_not_space).
  rewrite rstrip_digits by done.
  destruct (decide (a = "+"%char)) as [->|_]; [done|].
  destruct (decide (a = "-"%char)) as [->|_]; [done|].
  by rewrite digits_decimal by auto.
Qed.

Lemma contains_append sub p s :
  Str.contains sub s = true -> Str.contains sub (p +:+ s) = true.
Proof.
  intros Hs. induction p as [|a p IH]; [done|].
  rewrite append_cons. simpl.
  apply orb_true_iff. right. exact IH.
Qed.

(** A key of the pattern is picked up, and yields its number. *)
Lemma names_channel_found key n :
  names_channel key n ->
  Str.contains "waveforms" key = true /\ channel_of_key key = inr n.
Proof.
  intros (ds & Hne & Hds & -> & ->). split.
  - apply contains_append, contains_append. reflexivity.
  - unfold channel_of_key.
    rewrite split_underscore, split_channel by done.
    by apply int_digits.
Qed.

Lemma not_names_channel_waveforms n : ~ names_channel "waveforms" n.
Proof. intros (ds & _ & _ & Heq & _). discriminate. Qed.

Lemma not_names_channel_timestamp n : ~ names_channel "timestamp" n.
Proof. intros (ds & _ & _ & Heq & _). discriminate. Qed.

End Strings.

Section MapM.

Context {A B : Type} (f : A -> result B).

Lemma mapM_inv l ys :
  mapM f l = inr ys -> Forall2 (fun x y => f x = inr y) l ys.
Proof.
  revert ys. induction l as [|x l IH]; intros ys H; simpl in H.
  - inversion H. constructor.
  - destruct (f x) as [e|y] eqn:Hx; simpl in H; [done|].
    destruct (mapM f l) as [e|ys'] eqn:Hl; simpl in H; [done|].
    inversion H; subst. constructor; auto.
Qed.

Lemma mapM_total l :
  Forall (fun x => exists y, f x = inr y) l -> exists ys, mapM f l = inr ys.
Proof.
  induction 1 as [|x l [y Hy] _ [ys Hys]]; simpl.
  - by eexists.
  - rewrite Hy, Hys. simpl. by eexists.
Qed.

Lemma mapM_length l ys : mapM f l = inr ys -> length ys = length l.
Proof. intros H%mapM_inv. symmetry. by eapply Forall2_length. Qed.

Lemma mapM_elem l ys y :
  mapM f l = inr ys -> y ∈ ys <-> exists x, x ∈ l /\ f x = inr y.
Proof.
  intros H%mapM_inv. split.
  - intros [i Hi]%list_elem_of_lookup.
    destruct (Forall2_lookup_r _ _ _ _ _ H Hi) as (x & Hx & Hfx).
    exists x. split; [|done]. apply list_elem_of_lookup. eauto.
  - intros (x & [i Hi]%list_elem_of_lookup & Hfx).
    destruct (Forall2_lookup_l _ _ _ _ _ H Hi) as (y' & Hy' & Hfx').
    rewrite Hfx in Hfx'. inversion Hfx'; subst y'.
    apply list_elem_of_lookup. eauto.
Qed.

End MapM.

Section Discovery.

Variable set_to_list : list Z -> list Z.
Hypothesis set_to_list_NoDup : forall l, NoDup (set_to_list l).
Hypothesis set_to_list_elem : forall l x, x ∈ set_to_list l <-> x ∈ l.

Lemma set_to_list_nil : set_to_list [] = [].
Proof.
  destruct (set_to_list []) as [|x l] eqn:Heq; [done|].
  assert (x ∈ set_to_list []) as Hx by (rewrite Heq; apply list_elem_of_here).
  apply (proj1 (set_to_list_elem [] x)) in Hx. by apply not_elem_of_nil in Hx.
Qed.

Lemma new_RawDataContainer_ok (t : Tree) (data : RawDataContainer) :
  new_RawDataContainer set_to_list t = inr data -> container_ok data.
Proof.
  unfold new_RawDataContainer, get_channel_list. intros H.
  destruct (mapM channel_of_key _) as [e|found]; simpl in H; [done|].
  destruct (get_waveforms t _) as [e|ws] eqn:Hws; simpl in H; [done|].
  destruct (get_timestamps t) as [e|ts]; simpl in H; [done|].
  inversion H; subst data. split; simpl; [done|].
  symmetry. by eapply mapM_length.
Qed.

(** C9, amended. When every key that holds [waveforms] is of the pattern
    [channel<N>_waveforms], the channel list holds, once each, the numbers
    of the keys of the pattern; the keys that do not hold [waveforms] add
    no channel and raise nothing. *)
Theorem get_channel_list_pattern (t : Tree) :
  (forall k, k ∈ keys t -> Str.contains "waveforms" k = true ->
             exists n, names_channel k n) ->
  channel_set_of_pattern set_to_list t.
Proof.
  intros Hkeys. unfold channel_set_of_pattern, get_channel_list.
  set (picked := filter (fun k => Str.contains "waveforms" k = true) (keys t)).
  destruct (mapM_total channel_of_key picked) as [found Hfound].
  { apply Forall_forall. intros k [Hk Hin]%list_elem_of_filter.
    destruct (Hkeys k Hin Hk) as [n Hn].
    exists n. by apply names_channel_found. }
  rewrite Hfound. simpl. eexists. split; [done|].
  split; [done|]. intros n.
  rewrite set_to_list_elem, (mapM_elem _ _ _ _ Hfound). split.
  - intros (k & [Hk Hin]%list_elem_of_filter & Hn).
    exists k. split; [done|].
    destruct (Hkeys k Hin Hk) as [n' Hn'].
    destruct (names_channel_found k n' Hn') as [_ Hch].
    rewrite Hn in Hch. by inversion Hch; subst.
  - intros (k & Hin & Hn).
    destruct (names_channel_found k n Hn) as [Hk Hch].
    exists k. split; [|done]. by apply list_elem_of_filter.
Qed.

(** C7, amended.  For a source that has the branch [timestamp] and no key
    that holds [waveforms], the channel list is empty and the whole
    pipeline returns the empty mapping, provided the timestamp correction,
    which runs also without a channel, raises nothing: the element type of
    the branch holds [2^30] times the number of resets of the array. *)
Theorem create_from_file_no_channels (st : sample_type) (dt : dtype)
    (t : Tree) (ts : list Z) :
  (forall k, k ∈ keys t -> Str.contains "waveforms" k = false) ->
  counts_of t "timestamp" = Some ts ->
  2 ^ 30 * Z.of_nat (length (reset_indices ts)) <= Dtype.max dt ->
  get_channel_list set_to_list t = inr [] /\
  Machine.new_RawDataContainer set_to_list t
  = inr {| channels := []; waveforms := []; timestamps := ts |} /\
  Machine.create_from_file set_to_list st dt t = inr ∅.
Proof.
  intros Hkeys Hts Hfit.
  assert (Hcs : get_channel_list set_to_list t = inr []).
  { unfold get_channel_list.
    assert (filter (fun k => Str.contains "waveforms" k = true) (keys t) = [])
      as ->.
    { destruct (filter _ (keys t)) as [|k l] eqn:Hf; [done|]. exfalso.
      assert (k ∈ filter (fun k => Str.contains "waveforms" k = true) (keys t))
        as [Hk Hin]%list_elem_of_filter
        by (rewrite Hf; apply list_elem_of_here).
      by rewrite (Hkeys k Hin) in Hk. }
    simpl. by rewrite set_to_list_nil. }
  assert (Hnew : Machine.new_RawDataContainer set_to_list t
                 = inr {| channels := []; waveforms := []; timestamps := ts |}).
  { unfold Machine.new_RawDataContainer, get_timestamps. by rewrite Hcs, Hts. }
  split; [done|]. split; [done|].
  destruct (machine_correct_timestamps_returns dt ts Hfit) as (out & Hout & _).
  unfold Machine.create_from_file. rewrite Hnew. cbn [bind].
  unfold Machine.preprocess, Machine.preprocess_raw_data,
    Machine.subtract_baseline, Machine.turn_into_volts,
    Machine.for_each_channel, Machine.correct_timestamps_of.
  simpl. by rewrite Hout.
Qed.

End Discovery.

(** A key that holds [waveforms] and is not of the pattern can also pass
    for a channel. *)
Example get_channel_list_stray_key :
  get_channel_list remove_dups
    {| keys := ["timestamp"; "xchannel7_waveforms_b"]%string;
       samples_of := fun _ => None; counts_of := fun _ => None |}
  = inr [7].
Proof. reflexivity. Qed.

(** C9, as the spec words it, fails: a key that holds [waveforms] without
    being of the pattern does not pass unnoticed, here it raises. *)
Lemma get_channel_list_other_waveforms :
  get_channel_list remove_dups tree_other_waveforms = raise IndexError /\
  ~ channel_set_of_pattern remove_dups tree_other_waveforms.
Proof.
  split; [reflexivity|]. intros (cs & Hcs & _). discriminate.
Qed.

Lemma get_channel_list_pattern_witness :
  let t := {| keys := ["channel1_waveforms"; "timestamp"; "channel12_waveforms";
                       "channel1_waveforms"]%string;
              samples_of := fun _ => Some [[4096; 0]]%Q;
              counts_of := fun _ => Some [5; 3] |} in
  get_channel_list remove_dups t = inr [12; 1] /\
  channel_set_of_pattern remove_dups t.
Proof.
  intros t. split; [reflexivity|].
  apply (get_channel_list_pattern remove_dups NoDup_remove_dups
           (fun l x => elem_of_remove_dups l x)).
  intros k Hk Hw. simpl in Hk.
  rewrite !elem_of_cons, elem_of_nil in Hk.
  destruct Hk as [-> | [-> | [-> | [-> | []]]]].
  - exists 1, "1"%string. by repeat split.
  - discriminate Hw.
  - exists 12, "12"%string. by repeat split.
  - exists 1, "1"%string. by repeat split.
Defined.

(** C7, as the spec words it, fails three times: with no key of the
    pattern the pipeline still raises when a key holds [waveforms], when
    the branch [timestamp] is missing, and when the timestamps are signed
    32-bit integers with two resets, for which the second turn of the
    correction adds [2 * 2^30]. *)
Lemma create_from_file_no_pattern_key_raises :
  (forall k n, k ∈ keys tree_other_waveforms -> ~ names_channel k n) /\
  Machine.create_from_file remove_dups float64 int64 tree_other_waveforms
  = raise IndexError /\
  (forall k n, k ∈ keys tree_empty -> ~ names_channel k n) /\
  Machine.create_from_file remove_dups float64 int64 tree_empty = raise KeyError /\
  (forall k n, k ∈ keys (tree_timestamps [3; 1; 0; 5]) -> ~ names_channel k n) /\
  Machine.create_from_file remove_dups float64 int32 (tree_timestamps [3; 1; 0; 5])
  = raise OverflowError.
Proof.
  split; [|split; [reflexivity | split; [|split; [reflexivity | split; [|reflexivity]]]]].
  - intros k n Hk. simpl in Hk.
    apply elem_of_cons in Hk as [-> | Hk];
      [apply not_names_channel_timestamp|].
    apply list_elem_of_singleton in Hk as ->.
    apply not_names_channel_waveforms.
  - intros k n Hk. by apply not_elem_of_nil in Hk.
  - intros k n Hk. simpl in Hk. apply list_elem_of_singleton in Hk as ->.
    apply not_names_channel_timestamp.
Qed.

Lemma create_from_file_no_channels_witness :
  let t := {| keys := ["timestamp"; "trigger_time"]%string;
              samples_of := fun _ => None;
              counts_of := fun _ => Some [3; 1; 0; 5] |} in
  2 ^ 30 * Z.of_nat (length (reset_indices [3; 1; 0; 5])) <= Dtype.max int64 /\
  get_channel_list remove_dups t = inr [] /\
  Machine.new_RawDataContainer remove_dups t
  = inr {| channels := []; waveforms := []; timestamps := [3; 1; 0; 5] |} /\
  Machine.create_from_file remove_dups float64 int64 t = inr ∅.
Proof.
  intros t.
  assert (2 ^ 30 * Z.of_nat (length (reset_indices [3; 1; 0; 5]))
          <= Dtype.max int64) as Hfit by (vm_compute; discriminate).
  split; [done|].
  apply (create_from_file_no_channels remove_dups
           (fun l x => elem_of_remove_dups l x) float64 int64 t [3; 1; 0; 5]).
  - intros k Hk. simpl in Hk.
    apply elem_of_cons in Hk as [-> | Hk]; [reflexivity|].
    apply list_elem_of_singleton in Hk as ->. reflexivity.
  - reflexivity.
  - exact Hfit.
Defined.

(** * Further properties *)

(** ** The reset points and the corrected array *)

Section Resets.

Implicit Types (a ts : list Z) (ps : list (nat * nat)) (i j k r : nat).

Lemma where_from_elem_inv mask k r :
  r ∈ Np.where_from k mask ->
  exists i, r = (k + i)%nat /\ mask !! i = Some true.
Proof.
  revert k. induction mask as [|b mask IH]; intros k Hr; simpl in Hr.
  - by apply not_elem_of_nil in Hr.
  - assert (r ∈ Np.where_from (S k) mask ->
            exists i, r = (k + i)%nat /\ (b :: mask) !! i = Some true) as Hrest.
    { intros (i & -> & Hi)%IH. exists (S i). split; [lia | done]. }
    destruct b; [|by apply Hrest].
    apply elem_of_cons in Hr as [-> | Hr]; [|by apply Hrest].
    exists 0%nat. split; [lia | done].
Qed.

Lemma adjacent_gt_lookup_inv ts j b :
  Np.adjacent_gt ts !! j = Some b ->
  exists x y, ts !! j = Some x /\ ts !! S j = Some y /\ b = (x >? y).
Proof.
  revert j. induction ts as [|a ts IH]; intros j Hj; [done|].
  destruct ts as [|c ts]; [done|].
  change (Np.adjacent_gt (a :: c :: ts))
    with ((a >? c) :: Np.adjacent_gt (c :: ts)) in Hj.
  destruct j as [|j]; simpl in Hj.
  - inversion Hj. by exists a, c.
  - destruct (IH j Hj) as (x & y & Hx & Hy & ->). by exists x, y.
Qed.

Lemma reset_indices_elem_inv ts r :
  r ∈ reset_indices ts ->
  exists j x y, r = S j /\ ts !! j = Some x /\ ts !! S j = Some y /\ y < x.
Proof.
  unfold reset_indices, Np.where_.
  intros (j' & -> & Hj')%list_elem_of_fmap.
  apply where_from_elem_inv in Hj' as (j & -> & Hj).
  apply adjacent_gt_lookup_inv in Hj as (x & y & Hx & Hy & Hb).
  exists j, x, y. repeat split; [done..|].
  symmetry in Hb. apply Z.gtb_lt in Hb. lia.
Qed.

Lemma offset_at_nonneg ps j : 0 <= offset_at ps j.
Proof.
  pose proof increment_pos.
  induction ps as [|[i r] ps IH]; simpl; [lia|].
  case_decide; nia.
Qed.

Lemma offset_at_before ps j :
  (forall i r, (i, r) ∈ ps -> (j < r)%nat) -> offset_at ps j = 0.
Proof.
  induction ps as [|[i r] ps IH]; intros Hps; simpl; [done|].
  rewrite IH by (intros i' r' Hin; apply (Hps i' r'); by right).
  specialize (Hps i r ltac:(left)). simpl. case_decide; lia.
Qed.

Lemma enumerate_elem_inv {A} (l : list A) k x :
  (k, x) ∈ Np.enumerate l -> x ∈ l.
Proof.
  unfold Np.enumerate. intros [i Hi]%list_elem_of_lookup.
  apply lookup_zip_with_Some in Hi as (k' & x' & Heq & _ & Hx).
  inversion Heq; subst. apply list_elem_of_lookup. eauto.
Qed.

(** Without a decrease there is no reset point, and the loop has no turn. *)
Lemma correct_timestamps_no_reset ts :
  non_decreasing ts -> correct_timestamps ts = ts.
Proof.
  intros Hsorted. unfold correct_timestamps.
  destruct (reset_indices ts) as [|r R] eqn:HR; [done|]. exfalso.
  assert (r ∈ reset_indices ts) as Hr by (rewrite HR; left).
  apply reset_indices_elem_inv in Hr as (j & x & y & _ & Hx & Hy & Hlt).
  specialize (Hsorted j x y Hx Hy). lia.
Qed.

(** An array whose drops are of [2^30] at most is put in order. *)
Lemma correct_timestamps_orders ts :
  (forall j x y, ts !! j = Some x -> ts !! S j = Some y -> x - y <= 2 ^ 30) ->
  non_decreasing (correct_timestamps ts).
Proof.
  intros Hdrop i x y Hx Hy.
  rewrite correct_timestamps_lookup in Hx, Hy.
  destruct (ts !! i) as [a|] eqn:Ha; [|done].
  destruct (ts !! S i) as [b|] eqn:Hb; [|done].
  simpl in Hx, Hy. inversion Hx; inversion Hy; subst x y; clear Hx Hy.
  set (ps := Np.enumerate (reset_indices ts)).
  destruct (decide (a <= b)) as [Hle | Hgt].
  - pose proof (offset_at_step ps i). lia.
  - assert (Hreset : S i ∈ reset_indices ts)
      by (eapply reset_indices_elem; [done | done | lia]).
    apply list_elem_of_lookup in Hreset as [k Hk].
    pose proof (offset_at_jump ps k i (enumerate_elem _ _ _ Hk)) as Hjump.
    specialize (Hdrop i a b Ha Hb).
    change increment with (2 ^ 30) in Hjump. lia.
Qed.

End Resets.

(** X2. The reset points are the positions that follow a decrease, each
    listed once, in increasing order. *)
Theorem reset_indices_spec (ts : list Z) :
  StronglySorted lt (reset_indices ts) /\
  forall r, r ∈ reset_indices ts <->
    exists j x y, r = S j /\ ts !! j = Some x /\ ts !! S j = Some y /\ y < x.
Proof.
  split; [apply reset_indices_sorted|]. intros r. split.
  - apply reset_indices_elem_inv.
  - intros (j & x & y & -> & Hx & Hy & Hlt). by eapply reset_indices_elem.
Qed.

(** X3. The correction leaves an array as it is exactly when the array
    never decreases from one entry to the next. *)
Theorem correct_timestamps_fixed_iff (ts : list Z) :
  correct_timestamps ts = ts <-> non_decreasing ts.
Proof.
  split; [|apply correct_timestamps_no_reset].
  intros Hfix i x y Hx Hy.
  destruct (decide (x <= y)) as [|Hgt]; [done|]. exfalso.
  assert (S i ∈ reset_indices ts) as [k Hk]%list_elem_of_lookup
    by (eapply reset_indices_elem; [done | done | lia]).
  pose proof (offset_at_jump _ k i (enumerate_elem _ _ _ Hk)) as Hjump.
  pose proof (offset_at_nonneg (Np.enumerate (reset_indices ts)) i).
  pose proof increment_pos.
  pose proof (correct_timestamps_lookup ts (S i)) as Hlook.
  rewrite Hfix, Hy in Hlook. simpl in Hlook. inversion Hlook. lia.
Qed.

Section MachineResets.

(** Without a decrease there is no reset point. *)
Lemma reset_indices_nil (a : list Z) : non_decreasing a -> reset_indices a = [].
Proof.
  intros Hsorted.
  destruct (reset_indices a) as [|r R] eqn:HR; [done|]. exfalso.
  assert (r ∈ reset_indices a) as Hr by (rewrite HR; left).
  apply reset_indices_elem_inv in Hr as (j & x & y & _ & Hx & Hy & Hlt).
  specialize (Hsorted j x y Hx Hy). lia.
Qed.

End MachineResets.

(** X4. When the element type of a 30-bit timestamp array holds the sums of
    the loop, correcting the corrected array once more changes nothing. *)
Theorem correct_timestamps_fits_idempotent (dt : dtype) (ts : list Z) :
  Forall (fun t => 0 <= t < 2 ^ 30) ts ->
  2 ^ 30 * (triangle (length (reset_indices ts)) + 1) <= Dtype.max dt + 1 ->
  exists out, Machine.correct_timestamps dt ts = inr out /\
              Machine.correct_timestamps dt out = inr out.
Proof.
  intros Hts Hfit. exists (correct_timestamps ts).
  split; [by apply machine_correct_timestamps_fits|].
  unfold Machine.correct_timestamps.
  by rewrite (reset_indices_nil _ (correct_timestamps_non_decreasing ts Hts)).
Qed.

Lemma correct_timestamps_fits_idempotent_witness :
  exists out, Machine.correct_timestamps int64 [9; 8; 7; 6] = inr out /\
              Machine.correct_timestamps int64 out = inr out.
Proof.
  apply correct_timestamps_fits_idempotent.
  - repeat constructor; lia.
  - vm_compute. discriminate.
Defined.

(** X5. Whenever the correction returns, with or without a sum that
    wrapped, it has kept the length of the array and the entries before the
    first reset point, the first entry among them. *)
Theorem correct_timestamps_machine_keeps (dt : dtype) (ts out : list Z) :
  Machine.correct_timestamps dt ts = inr out ->
  length out = length ts /\
  (forall j, (forall r, r ∈ reset_indices ts -> (j < r)%nat) ->
     out !! j = ts !! j) /\
  out !! 0%nat = ts !! 0%nat.
Proof.
  intros H.
  assert (Hbefore : forall j, (forall r, r ∈ reset_indices ts -> (j < r)%nat) ->
            out !! j = ts !! j).
  { intros j Hj. apply (machine_fold_before dt _ _ _ _ H).
    intros i r Hin%enumerate_elem_inv. by apply Hj. }
  split; [by eapply machine_fold_length|]. split; [exact Hbefore|].
  apply Hbefore. intros r (j & _ & _ & -> & _)%reset_indices_elem_inv. lia.
Qed.

(** The unsigned 32-bit array [[9; 8; 7; 6]], whose last sum wraps. *)
Lemma correct_timestamps_machine_keeps_witness :
  let out := [9; 8 + 2^30; 7 + 3 * 2^30; 6 + 2 * 2^30] in
  length out = length [9; 8; 7; 6] /\
  (forall j, (forall r, r ∈ reset_indices [9; 8; 7; 6] -> (j < r)%nat) ->
     out !! j = [9; 8; 7; 6] !! j) /\
  out !! 0%nat = [9; 8; 7; 6] !! 0%nat.
Proof.
  intros out. apply (correct_timestamps_machine_keeps uint32). reflexivity.
Defined.

(** ** The waveform corrections *)

Section Corrections.

Implicit Types (l w raw : waveform_t) (m : matrix) (c : RawDataContainer).





End Corrections.

(** X6. Preprocessing a container of two-dimensional floating-point
    matrices, one per channel, raises nothing when the integer of each turn
    of the timestamp loop fits the element type of the timestamps, and
    keeps every shape: the channels, the number of timestamps, and the
    number of samples of each waveform of each matrix. *)
Theorem preprocess_keeps_shape (st : sample_type) (dt : dtype)
    (c : RawDataContainer) :
  floating st = true ->
  length (channels c) = length (waveforms c) ->
  Forall (fun m => rectangular m = true) (waveforms c) ->
  2 ^ 30 * Z.of_nat (length (reset_indices (timestamps c))) <= Dtype.max dt ->
  exists c', Machine.preprocess st dt c = inr c' /\
    channels c' = channels c /\
    Machine.correct_timestamps dt (timestamps c) = inr (timestamps c') /\
    length (timestamps c') = length (timestamps c) /\
    Forall2 (Forall2 (fun w w' : list Q => length w' = length w))
            (waveforms c) (waveforms c').
Proof.
  intros Hfl Hlen Hrect Hfit.
  destruct (machine_correct_timestamps_returns dt (timestamps c) Hfit)
    as (out & Hout & Hlen').
  eexists. split; [by apply machine_preprocess_ok|]. simpl.
  split; [done|]. split; [done|]. split; [done|].
  clear. induction (waveforms c) as [|m ms IH]; simpl; [constructor|]; constructor; [|done].
  clear. induction m as [|w m IH]; simpl; [constructor|]; constructor; [|done].
  unfold volts_in. apply length_map.
Qed.

Lemma preprocess_keeps_shape_witness :
  let c := {| channels := [7; 9];
              waveforms := [[[1; -2]; [3; 4]]; [[0; 5]]]%Q;
              timestamps := [5; 6; 2; 3] |} in
  exists c', Machine.preprocess float64 uint32 c = inr c' /\
    channels c' = channels c /\
    Machine.correct_timestamps uint32 (timestamps c) = inr (timestamps c') /\
    length (timestamps c') = length (timestamps c) /\
    Forall2 (Forall2 (fun w w' : list Q => length w' = length w))
            (waveforms c) (waveforms c').
Proof.
  intros c. apply preprocess_keeps_shape.
  - reflexivity.
  - reflexivity.
  - repeat constructor.
  - vm_compute. discriminate.
Defined.

(** X23. The baseline subtraction refuses, at the first channel, a matrix
    whose rows differ in length ([IndexError]: the array of the rows has
    one axis, the index [[:, :50]] two) and a matrix of integers (the
    differences are floats, which [-=] cannot store into it): a container
    of raw integer counts is not preprocessed. *)
Theorem preprocess_rejects (st : sample_type) (dt : dtype)
    (c : RawDataContainer) (m : matrix) :
  channels c <> [] ->
  waveforms c !! 0%nat = Some m ->
  (rectangular m = false -> Machine.preprocess st dt c = raise IndexError) /\
  (rectangular m = true -> floating st = false ->
   Machine.preprocess st dt c = raise UFuncOutputCastingError).
Proof.
  intros Hch Hm.
  assert (forall e,
    (if negb (rectangular m) then raise IndexError
     else if negb (floating st) then raise UFuncOutputCastingError
     else ret (Np.sub_col (fsub st) m (Np.mean_cols (fmean st) 50 m))) = inl e ->
    Machine.preprocess st dt c = inl e) as Hraise.
  { intros e He. unfold Machine.preprocess, Machine.preprocess_raw_data,
      Machine.subtract_baseline, Machine.for_each_channel.
    destruct (channels c) as [|ch chs]; [done|]. simpl.
    unfold Machine.update_at at 1. rewrite Hm, He. done. }
  split.
  - intros Hr. apply Hraise. by rewrite Hr.
  - intros Hr Hfl. apply Hraise. by rewrite Hr, Hfl.
Qed.

Lemma preprocess_rejects_witness :
  Machine.preprocess float64 int64
    {| channels := [7]; waveforms := [[[4096; 0]; [3]]]%Q; timestamps := [1] |}
  = raise IndexError /\
  Machine.preprocess integer_samples int64
    {| channels := [7]; waveforms := [[[4096; 0]; [3; 1]]]%Q; timestamps := [1] |}
  = raise UFuncOutputCastingError.
Proof.
  split.
  - apply (proj1 (preprocess_rejects float64 int64
       {| channels := [7]; waveforms := [[[4096; 0]; [3]]]%Q; timestamps := [1] |}
       [[4096; 0]; [3]]%Q ltac:(discriminate) eq_refl)). reflexivity.
  - apply (proj2 (preprocess_rejects integer_samples int64
       {| channels := [7]; waveforms := [[[4096; 0]; [3; 1]]]%Q; timestamps := [1] |}
       [[4096; 0]; [3; 1]]%Q ltac:(discriminate) eq_refl)); reflexivity.
Defined.



(** ** The outcome of the event construction *)

Section Outcome.

Implicit Types (ts : list Z) (it : cycle) (ws : matrix)
  (pairs : list (Z * matrix)) (d : gmap Z (list DigitizerEvent)).

Lemma events_of_nonempty ws it r :
  events_of ws it = inr r -> nonempty_waveforms ws.
Proof.
  revert it r. induction ws as [|w ws IH]; intros it r H; [constructor|].
  simpl in H.
  destruct (next it) as [e|[x it1]]; simpl in H; [done|].
  destruct (new_DigitizerEvent w x) as [e|ev] eqn:Hev; simpl in H; [done|].
  destruct (events_of ws it1) as [e|r1] eqn:Hrest; simpl in H; [done|].
  constructor; [|by eapply IH].
  by destruct (new_DigitizerEvent_inv _ _ _ Hev).
Qed.

Lemma events_of_no_timestamps ws it r :
  pending it = [] -> saved it = [] -> events_of ws it = inr r -> ws = [].
Proof.
  intros Hp Hs H. destruct ws as [|w ws]; [done|].
  simpl in H. by rewrite next_empty in H.
Qed.

(** With a timestamp to draw, the comprehension can only fail on an empty
    waveform. *)
Lemma events_of_error ts j ws it e :
  ts <> [] -> drawn ts j it -> events_of ws it = inl e ->
  e = ValueError /\ Exists (fun w => w = []) ws.
Proof.
  intros Hne. revert j it.
  induction ws as [|w ws IH]; intros j it Hd H; [done|]. simpl in H.
  destruct (next_drawn ts j it Hne Hd) as (x & it1 & Hn & _ & Hd1).
  rewrite Hn in H. simpl in H.
  destruct w as [|y w]; [inversion H; split; [done | by left]|].
  destruct (new_DigitizerEvent (y :: w) x) as [e'|ev] eqn:Hev; [done|].
  simpl in H.
  destruct (events_of ws it1) as [e'|r1] eqn:Hrest; simpl in H; [|done].
  inversion H; subst e'.
  destruct (IH _ _ Hd1 Hrest) as [-> Hex]. split; [done | by right].
Qed.

Lemma events_of_ValueError ts j ws it :
  ts <> [] -> drawn ts j it -> Exists (fun w => w = []) ws ->
  events_of ws it = raise ValueError.
Proof.
  intros Hne Hd Hex.
  destruct (events_of ws it) as [e|r] eqn:H.
  - by destruct (events_of_error _ _ _ _ _ Hne Hd H) as [-> _].
  - apply events_of_nonempty in H. exfalso.
    apply Exists_exists in Hex as (w & Hw & ->).
    unfold nonempty_waveforms in H. rewrite Forall_forall in H.
    by apply (H [] Hw).
Qed.

Lemma fill_events_dict_ValueError ts pairs d0 it j :
  ts <> [] -> drawn ts j it ->
  Exists (fun p => Exists (fun w => w = []) p.2) pairs ->
  fill_events_dict pairs d0 it = raise ValueError.
Proof.
  intros Hne. revert d0 it j.
  induction pairs as [|[ch ws] pairs IH]; intros d0 it j Hd Hex.
  - by apply Exists_nil in Hex.
  - simpl. destruct (events_of ws it) as [e|[evs it1]] eqn:Hev; simpl.
    + by destruct (events_of_error _ _ _ _ _ Hne Hd Hev) as [-> _].
    + destruct (events_of_inv _ _ _ _ _ _ Hd Hev) as (Hd1 & _).
      apply (IH _ _ _ Hd1).
      apply Exists_cons in Hex as [Hhere | Hlater]; [|done]. exfalso.
      rewrite (events_of_ValueError ts j ws it Hne Hd Hhere) in Hev. done.
Qed.

Lemma fill_events_dict_nonempty pairs d0 it r :
  fill_events_dict pairs d0 it = inr r ->
  Forall (fun p => nonempty_waveforms p.2) pairs.
Proof.
  revert d0 it. induction pairs as [|[ch ws] pairs IH]; intros d0 it H;
    [constructor|].
  simpl in H.
  destruct (events_of ws it) as [e|built] eqn:Hev; simpl in H; [done|].
  constructor; [by eapply events_of_nonempty | by eapply IH].
Qed.

Lemma fill_events_dict_no_timestamps pairs d0 it r :
  pending it = [] -> saved it = [] ->
  fill_events_dict pairs d0 it = inr r ->
  Forall (fun p => p.2 = []) pairs.
Proof.
  intros Hp Hs. revert d0.
  induction pairs as [|[ch ws] pairs IH]; intros d0 H; [constructor|].
  simpl in H.
  destruct (events_of ws it) as [e|built] eqn:Hev; simpl in H; [done|].
  pose proof (events_of_no_timestamps _ _ _ Hp Hs Hev) as ->.
  simpl in Hev. inversion Hev; subst built. simpl in H.
  constructor; [done | by eapply IH].
Qed.

Lemma fill_events_dict_all_empty pairs d0 it :
  Forall (fun p => p.2 = []) pairs ->
  exists d, fill_events_dict pairs d0 it = inr (d, it) /\
    (forall ch, ch ∈ pairs.*1 -> d !! ch = Some []) /\
    (forall ch, ch ∉ pairs.*1 -> d !! ch = d0 !! ch).
Proof.
  revert d0. induction pairs as [|[ch0 ws] pairs IH]; intros d0 Hall.
  - exists d0. split; [done|]. split; [|done].
    intros ch Hch. by apply not_elem_of_nil in Hch.
  - apply Forall_cons in Hall as [Hws Hall]. simpl in Hws. subst ws. simpl.
    destruct (IH (<[ch0 := []]> d0) Hall) as (d & -> & Hin & Hout).
    exists d. split; [done|]. split.
    + intros ch Hch. rewrite ?fmap_cons in Hch.
      destruct (decide (ch ∈ pairs.*1)) as [|Hno]; [by apply Hin|].
      apply elem_of_cons in Hch as [-> | Hch]; [|done].
      by rewrite (Hout _ Hno), lookup_insert_eq.
    + intros ch Hch. rewrite ?fmap_cons in Hch.
      apply not_elem_of_cons in Hch as [Hne Hch].
      by rewrite (Hout _ Hch), lookup_insert_ne.
Qed.

Lemma events_of_built ts j ws it evs it' :
  drawn ts j it -> events_of ws it = inr (evs, it') ->
  Forall (fun ev => timestamp ev ∈ ts /\ waveform ev ∈ ws /\
                    new_DigitizerEvent (waveform ev) (timestamp ev) = inr ev)
         evs.
Proof.
  revert j it evs it'.
  induction ws as [|w ws IH]; intros j it evs it' Hd H; simpl in H.
  - inversion H. constructor.
  - destruct (next it) as [e|[x it1]] eqn:Hn; simpl in H; [done|].
    destruct (new_DigitizerEvent w x) as [e|ev0] eqn:Hev; simpl in H; [done|].
    destruct (events_of ws it1) as [e|[evs1 it2]] eqn:Hrest; simpl in H; [done|].
    inversion H; subst evs it'; clear H.
    destruct (next_drawn_inv _ _ _ _ _ Hd Hn) as [Hx Hd1].
    destruct (new_DigitizerEvent_inv _ _ _ Hev) as (_ & Hw & Ht).
    constructor.
    + rewrite Hw, Ht. split; [|split; [by left | done]].
      apply list_elem_of_lookup. eauto.
    + eapply Forall_impl; [by eapply IH|]. simpl.
      intros ev (? & ? & ?). split; [done|]. split; [by right | done].
Qed.

Lemma fill_events_dict_built ts pairs d0 it j d it' :
  drawn ts j it -> fill_events_dict pairs d0 it = inr (d, it') ->
  forall ch evs, d !! ch = Some evs ->
    d0 !! ch = Some evs \/
    exists ws, (ch, ws) ∈ pairs /\
      Forall (fun ev => timestamp ev ∈ ts /\ waveform ev ∈ ws /\
                new_DigitizerEvent (waveform ev) (timestamp ev) = inr ev) evs.
Proof.
  revert d0 it j.
  induction pairs as [|[ch0 ws0] pairs IH]; intros d0 it j Hd H ch evs Hlook;
    simpl in H.
  - inversion H; subst. by left.
  - destruct (events_of ws0 it) as [e|[evs0 it1]] eqn:Hev; simpl in H; [done|].
    destruct (events_of_inv _ _ _ _ _ _ Hd Hev) as (Hd1 & _).
    destruct (IH _ _ _ Hd1 H ch evs Hlook) as [Hold | (ws & Hin & Hall)].
    + destruct (decide (ch0 = ch)) as [<- | Hne].
      * rewrite lookup_insert_eq in Hold. inversion Hold; subst evs0.
        right. exists ws0. split; [by left|].
        exact (events_of_built _ _ _ _ _ _ Hd Hev).
      * rewrite lookup_insert_ne in Hold by done. by left.
    + right. exists ws. split; [by right | done].
Qed.

End Outcome.

(** X13. The construction of the events of a container that has one matrix
    per channel ends in one of these ways.  With a timestamp to draw, an
    empty waveform anywhere makes it raise [ValueError].  Without any
    timestamp it returns only when no channel has a waveform, and then maps
    every channel to the empty list.  When it returns a mapping, no
    waveform of the container is empty. *)
Theorem create_events_dict_outcome (data : RawDataContainer) :
  length (channels data) = length (waveforms data) ->
  (timestamps data <> [] ->
   Exists (Exists (fun w => w = [])) (waveforms data) ->
   create_events_dict data = raise ValueError) /\
  (timestamps data = [] ->
   Forall (fun m => m = []) (waveforms data) ->
   exists d, create_events_dict data = inr d /\
     forall ch, ch ∈ channels data -> d !! ch = Some []) /\
  (forall d, create_events_dict data = inr d ->
     Forall nonempty_waveforms (waveforms data) /\
     (timestamps data = [] -> Forall (fun m => m = []) (waveforms data))).
Proof.
  intros Hlen.
  pose proof (fst_zip (channels data) (waveforms data) ltac:(lia)) as Hfst.
  pose proof (snd_zip (channels data) (waveforms data) ltac:(lia)) as Hsnd.
  unfold create_events_dict. split; [|split].
  - intros Hne Hex.
    rewrite (fill_events_dict_ValueError (timestamps data) _ _ _ 0 Hne
               (new_cycle_drawn _)); [done|].
    rewrite <- Hsnd in Hex.
    exact (proj1 (Exists_fmap _ _ _) Hex).
  - intros Hts Hall.
    destruct (fill_events_dict_all_empty
                (zip (channels data) (waveforms data)) ∅
                (new_cycle (timestamps data))) as (d & -> & Hin & _).
    { rewrite <- Hsnd in Hall. exact (proj1 (Forall_fmap _ _ _) Hall). }
    exists d. split; [done|]. intros ch Hch. apply Hin. by rewrite Hfst.
  - intros d H.
    destruct (fill_events_dict _ _ _) as [e|r] eqn:Hfill; simpl in H; [done|].
    split.
    + apply fill_events_dict_nonempty in Hfill.
      rewrite <- Hsnd. exact (proj2 (Forall_fmap _ _ _) Hfill).
    + intros Hts.
      apply fill_events_dict_no_timestamps in Hfill; [|by rewrite Hts..].
      rewrite <- Hsnd. exact (proj2 (Forall_fmap _ _ _) Hfill).
Qed.

Lemma create_events_dict_outcome_witness :
  create_events_dict
    {| channels := [7; 9]; waveforms := [[[1; -2]]; [[3]; []]]%Q;
       timestamps := [100; 200] |}
  = raise ValueError /\
  (exists d,
     create_events_dict
       {| channels := [7; 9]; waveforms := [[]; []]; timestamps := [] |}
     = inr d /\
     forall ch, ch ∈ [7; 9] -> d !! ch = Some []).
Proof.
  split.
  - apply (proj1 (create_events_dict_outcome
       {| channels := [7; 9]; waveforms := [[[1; -2]]; [[3]; []]]%Q;
          timestamps := [100; 200] |} eq_refl)); [discriminate|].
    right. left. right. by left.
  - apply (proj1 (proj2 (create_events_dict_outcome
       {| channels := [7; 9]; waveforms := [[]; []]; timestamps := [] |}
       eq_refl))); [reflexivity|].
    by repeat constructor.
Defined.

(** X14. Every event of the mapping belongs to a channel of the container
    and is what the constructor makes of a waveform of the container and
    of an entry of the timestamp array: no timestamp and no waveform is
    made up, and the amplitude stored is the one of the event's own
    waveform. *)
Theorem create_events_dict_built (data : RawDataContainer)
    (d : gmap Z (list DigitizerEvent)) :
  create_events_dict data = inr d ->
  forall ch evs ev, d !! ch = Some evs -> ev ∈ evs ->
    ch ∈ channels data /\ built_from data ev.
Proof.
  unfold create_events_dict. intros H ch evs ev Hlook Hev.
  destruct (fill_events_dict _ _ _) as [e|[d' it']] eqn:Hfill; simpl in H;
    [done|].
  inversion H; subst d'; clear H.
  destruct (fill_events_dict_built (timestamps data) _ _ _ 0 _ _
              (new_cycle_drawn _) Hfill ch evs Hlook)
    as [Hempty | (ws & Hin & Hall)]; [by rewrite lookup_empty in Hempty|].
  apply list_elem_of_lookup in Hin as [i Hi].
  apply lookup_zip_with_Some in Hi as (c & m & Heq & Hc & Hm).
  inversion Heq; subst c m.
  rewrite Forall_forall in Hall.
  destruct (Hall ev Hev) as (Ht & Hw & Hnew).
  split; [apply list_elem_of_lookup; eauto|].
  split; [done|]. split; [|done].
  exists ws. split; [apply list_elem_of_lookup; eauto | done].
Qed.

Lemma create_events_dict_built_witness :
  let data := {| channels := [7]; waveforms := [[[1; -2]; [3]]]%Q;
                 timestamps := [100] |} in
  let ev := {| waveform := [3]%Q; timestamp := 100; amplitude := 3 * -1 |} in
  7 ∈ channels data /\ built_from data ev.
Proof.
  intros data ev.
  set (ev0 := {| waveform := [1; -2]%Q; timestamp := 100;
                 amplitude := -2 * -1 |}).
  apply (create_events_dict_built data
           (<[7 := [ev0; ev]]> ∅ : gmap Z (list DigitizerEvent))
           ltac:(reflexivity) 7 [ev0; ev]).
  - apply lookup_insert_eq.
  - right. left.
Defined.

(** ** Branch names and channel numbers *)

Section Keys.

Local Open Scope string_scope.
Implicit Types (s ds head tail cur : string) (a c : ascii) (u : Decimal.uint).

Lemma string_of_uint_digits u :
  all_digits (NilEmpty.string_of_uint u) = true.
Proof. induction u; simpl; done. Qed.

Lemma decimal_of_uint_acc u (acc : positive) :
  decimal (Z.pos acc) (NilEmpty.string_of_uint u)
  = Z.pos (Pos.of_uint_acc u acc).
Proof.
  revert acc.
  induction u; intros acc;
    cbn [NilEmpty.string_of_uint decimal Pos.of_uint_acc]; [done | ..];
    rewrite <- IHu; f_equal;
    match goal with
    | |- context [Str.digit_value ?a] =>
        let v := eval vm_compute in (Str.digit_value a) in
        change (Str.digit_value a) with v
    end; lia.
Qed.

Lemma decimal_of_uint u :
  decimal 0 (NilEmpty.string_of_uint u) = Z.of_uint u.
Proof.
  unfold Z.of_uint.
  induction u; cbn [NilEmpty.string_of_uint decimal Pos.of_uint];
    [done | exact IHu | apply (decimal_of_uint_acc _ _) ..].
Qed.

Lemma string_of_uint_nonempty u :
  u <> Decimal.Nil -> NilEmpty.string_of_uint u <> EmptyString.
Proof. by destruct u. Qed.

Lemma nilzero_cases u :
  u = Decimal.Nil \/
  (u <> Decimal.Nil /\
   NilZero.string_of_uint u = NilEmpty.string_of_uint u).
Proof. destruct u; [by left | by right ..]. Qed.

(** [int] reads the decimal digits of a number back. *)
Lemma int_string_of_uint u :
  Str.int (NilZero.string_of_uint u) = inr (Z.of_uint u).
Proof.
  destruct (nilzero_cases u) as [-> | [Hne ->]]; [done|].
  rewrite int_digits;
    [by rewrite decimal_of_uint | by apply string_of_uint_nonempty
    | apply string_of_uint_digits].
Qed.

Lemma nilzero_digits u :
  all_digits (NilZero.string_of_uint u) = true /\
  NilZero.string_of_uint u <> EmptyString.
Proof.
  destruct (nilzero_cases u) as [-> | [Hne ->]]; [done|].
  split; [apply string_of_uint_digits | by apply string_of_uint_nonempty].
Qed.

Lemma int_minus ds :
  ds <> EmptyString -> all_digits ds = true ->
  Str.int (String "-" ds) = inr (- decimal 0 ds).
Proof.
  intros Hne Hds. unfold Str.int.
  assert (Str.lstrip (String "-" ds) = String "-" ds) as -> by done.
  assert (Str.rstrip (String "-" ds) = String "-" ds) as ->.
  { cbn [Str.rstrip]. rewrite rstrip_digits by done. by destruct ds. }
  destruct (decide ("-"%char = "+"%char)) as [|_]; [done|].
  destruct (decide ("-"%char = "-"%char)) as [_|]; [|done].
  by rewrite digits_decimal by auto.
Qed.

(** [int(str(n)) == n] *)
Lemma int_of_int (n : Z) : Str.int (Str.of_int n) = inr n.
Proof.
  unfold Str.of_int. rewrite <- (DecimalZ.of_to n) at 2.
  destruct (Z.to_int n) as [u | u]; cbn [NilZero.string_of_int Z.of_int].
  - apply int_string_of_uint.
  - destruct (nilzero_digits u) as [Hds Hne].
    rewrite int_minus by done. f_equal. f_equal.
    pose proof (int_string_of_uint u) as Hint.
    rewrite int_digits in Hint by done. by inversion Hint.
Qed.

Lemma of_int_avoids c (n : Z) :
  Str.is_digit c = false -> c <> "-"%char -> avoids c (Str.of_int n).
Proof.
  intros Hc Hminus. unfold Str.of_int.
  destruct (Z.to_int n) as [u | u]; cbn [NilZero.string_of_int].
  - apply all_digits_avoids; [done | apply nilzero_digits].
  - split; [done|]. apply all_digits_avoids; [done | apply nilzero_digits].
Qed.

Lemma split_underscore_body s :
  avoids "_" s ->
  Str.split "_" ("channel" +:+ s +:+ "_waveforms")
  = ["channel" +:+ s; "waveforms"].
Proof.
  intros Hs. unfold Str.split.
  rewrite <- (append_assoc "channel" s "_waveforms").
  rewrite (split_go_avoids "_" EmptyString EmptyString ("channel" +:+ s)
             "_waveforms").
  - reflexivity.
  - apply (avoids_append _ "channel" s); [|done].
    simpl. repeat split; discriminate.
Qed.

Lemma split_channel_body s :
  avoids "c" s -> Str.split "channel" ("channel" +:+ s) = [EmptyString; s].
Proof.
  intros Hs. unfold Str.split.
  rewrite !append_cons, append_nil_l. simpl. f_equal.
  pose proof (split_go_avoids "c" "hannel" EmptyString s EmptyString Hs) as Hgo.
  rewrite append_nil_r, append_nil_l in Hgo. by rewrite Hgo.
Qed.

(** A text without the separator is a single piece. *)
Lemma split_go_absent c sep' cur s :
  Str.contains (String c sep') s = false ->
  Str.split_go (String c sep') 0 cur s = [cur +:+ s].
Proof.
  revert cur. induction s as [|a s IH]; intros cur Hs.
  - by rewrite append_nil_r.
  - cbn [Str.contains] in Hs. apply orb_false_iff in Hs as [Hhere Hlater].
    cbn [Str.split_go]. rewrite Hhere, IH by done.
    by rewrite append_assoc, append_cons, append_nil_l.
Qed.

Lemma split_absent c sep' s :
  Str.contains (String c sep') s = false ->
  Str.split (String c sep') s = [s].
Proof.
  intros Hs. unfold Str.split. rewrite split_go_absent by done.
  by rewrite append_nil_l.
Qed.

Lemma avoids_contains c sep' s :
  avoids c s -> Str.contains (String c sep') s = false.
Proof.
  induction s as [|a s IH]; [done|]. intros [Ha Hs].
  cbn [Str.contains Str.starts_with]. rewrite IH by done.
  destruct (decide (c = a)) as [->|_]; done.
Qed.

Lemma split_head head tail :
  avoids "_" head ->
  exists rest, Str.split "_" (head +:+ "_" +:+ tail) = head :: rest.
Proof.
  intros Hh. unfold Str.split.
  rewrite (split_go_avoids "_" EmptyString EmptyString head ("_" +:+ tail)) by done.
  rewrite append_nil_l, append_cons, append_nil_l. simpl. eauto.
Qed.

End Keys.

Section MapMErrors.

Context {A B : Type} (f : A -> result B).

Lemma mapM_fails l x e :
  x ∈ l -> f x = inl e -> exists e', mapM f l = inl e'.
Proof.
  induction l as [|y l IH]; intros Hin Hx; [by apply not_elem_of_nil in Hin|].
  simpl. destruct (f y) as [e1|b] eqn:Hy; simpl; [by eexists|].
  apply elem_of_cons in Hin as [-> | Hin]; [congruence|].
  destruct (IH Hin Hx) as [e' ->]. simpl. by eexists.
Qed.


End MapMErrors.

Lemma waveforms_key_found (n : Z) :
  Str.contains "waveforms" (waveforms_key n) = true.
Proof. unfold waveforms_key. apply contains_append, contains_append. reflexivity. Qed.

Lemma waveforms_key_number (n : Z) : channel_of_key (waveforms_key n) = inr n.
Proof.
  unfold waveforms_key, channel_of_key.
  rewrite split_underscore_body by (by apply of_int_avoids).
  rewrite split_channel_body by (by apply of_int_avoids).
  apply int_of_int.
Qed.

(** X15. The branch name that [get_waveforms] derives from a channel
    number, of either sign, holds [waveforms] and is read back by
    [get_channel_list] as that number. *)
Theorem channel_of_waveforms_key (n : Z) :
  Str.contains "waveforms" (waveforms_key n) = true /\
  channel_of_key (waveforms_key n) = inr n.
Proof.
  unfold waveforms_key. split.
  - apply contains_append, contains_append. reflexivity.
  - unfold channel_of_key.
    rewrite split_underscore_body by (by apply of_int_avoids).
    rewrite split_channel_body by (by apply of_int_avoids).
    apply int_of_int.
Qed.

(** X16. A key whose text before the first underscore does not hold
    [channel] cannot be read as a channel: [IndexError], with or without an
    underscore in the key. *)
Theorem channel_of_key_no_channel (head tail : string) :
  avoids "_" head ->
  Str.contains "channel" head = false ->
  channel_of_key head = raise IndexError /\
  channel_of_key (head +:+ "_" +:+ tail) = raise IndexError.
Proof.
  intros Hh Hc. unfold channel_of_key. split.
  - rewrite (split_absent "_" EmptyString head) by (by apply avoids_contains).
    by rewrite (split_absent "c" "hannel" head).
  - destruct (split_head head tail Hh) as [rest ->].
    by rewrite (split_absent "c" "hannel" head).
Qed.

Lemma channel_of_key_no_channel_witness :
  channel_of_key "waveforms" = raise IndexError /\
  channel_of_key ("ch3" +:+ "_" +:+ "waveforms") = raise IndexError.
Proof.
  split.
  - apply (channel_of_key_no_channel "waveforms" EmptyString);
      [by repeat split | reflexivity].
  - apply (channel_of_key_no_channel "ch3" "waveforms");
      [by repeat split | reflexivity].
Defined.

(** ** The container and the whole pipeline *)

Section Construction.

Variable set_to_list : list Z -> list Z.

Lemma get_waveforms_inv (t : Tree) (cs : list Z) (ws : list (list (list Q))) :
  get_waveforms t cs = inr ws ->
  length ws = length cs /\
  forall i n, cs !! i = Some n ->
    exists m, ws !! i = Some m /\ samples_of t (waveforms_key n) = Some m.
Proof.
  unfold get_waveforms. intros H.
  split; [by eapply mapM_length|].
  apply mapM_inv in H. intros i n Hn.
  destruct (Forall2_lookup_l _ _ _ _ _ H Hn) as (m & Hm & Hkey).
  exists m. split; [done|]. unfold waveforms_key.
  destruct (samples_of t _) as [m'|]; [|done]. by inversion Hkey.
Qed.



Lemma new_RawDataContainer_inv (t : Tree) (data : RawDataContainer) :
  new_RawDataContainer set_to_list t = inr data ->
  get_channel_list set_to_list t = inr (channels data) /\
  get_waveforms t (channels data) = inr (waveforms data) /\
  counts_of t "timestamp" = Some (timestamps data).
Proof.
  unfold new_RawDataContainer, get_timestamps. intros H.
  destruct (get_channel_list set_to_list t) as [e|cs]; simpl in H; [done|].
  destruct (get_waveforms t cs) as [e|ws] eqn:Hws; simpl in H; [done|].
  destruct (counts_of t "timestamp") as [ts|]; simpl in H; [|done].
  by inversion H; subst data.
Qed.

End Construction.

(** X17. Whenever the container is constructed, its parts correspond by
    position: there is one matrix per channel, the [i]-th matrix is the
    branch named after the [i]-th channel number, and the timestamps are
    the branch [timestamp]. *)
Theorem new_RawDataContainer_branches (set_to_list : list Z -> list Z)
    (t : Tree) (data : RawDataContainer) :
  new_RawDataContainer set_to_list t = inr data ->
  get_channel_list set_to_list t = inr (channels data) /\
  counts_of t "timestamp" = Some (timestamps data) /\
  length (waveforms data) = length (channels data) /\
  forall i n, channels data !! i = Some n ->
    exists m, waveforms data !! i = Some m /\
              samples_of t (waveforms_key n) = Some m.
Proof.
  intros (Hcs & Hws & Hts)%new_RawDataContainer_inv.
  destruct (get_waveforms_inv t _ _ Hws) as [Hlen Hpos].
  by repeat split.
Qed.

Lemma new_RawDataContainer_branches_witness :
  let t := {| keys := ["channel3_waveforms"; "timestamp"]%string;
              samples_of := fun k =>
                if decide (k = "channel3_waveforms"%string)
                then Some [[4096; 0]]%Q else None;
              counts_of := fun _ => Some [5; 3] |} in
  let data := {| channels := [3]; waveforms := [[[4096; 0]]]%Q;
                 timestamps := [5; 3] |} in
  get_channel_list remove_dups t = inr (channels data) /\
  counts_of t "timestamp" = Some (timestamps data) /\
  length (waveforms data) = length (channels data) /\
  forall i n, channels data !! i = Some n ->
    exists m, waveforms data !! i = Some m /\
              samples_of t (waveforms_key n) = Some m.
Proof.
  intros t data.
  apply (new_RawDataContainer_branches remove_dups t data). reflexivity.
Defined.

Section WellFormed.

Variable set_to_list : list Z -> list Z.
Hypothesis set_to_list_NoDup : forall l, NoDup (set_to_list l).
Hypothesis set_to_list_elem : forall l x, x ∈ set_to_list l <-> x ∈ l.

Lemma get_channel_list_well_formed (t : Tree) :
  well_formed t ->
  exists cs, get_channel_list set_to_list t = inr cs /\ NoDup cs /\
    forall n, n ∈ cs <-> waveforms_key n ∈ keys t.
Proof.
  intros [Hkeys _]. unfold get_channel_list.
  set (picked := filter (fun k => Str.contains "waveforms" k = true) (keys t)).
  destruct (mapM_total channel_of_key picked) as [found Hfound].
  { apply Forall_forall. intros k [Hk Hin]%list_elem_of_filter.
    destruct (Hkeys k Hin Hk) as (n & -> & _).
    exists n. apply waveforms_key_number. }
  rewrite Hfound. simpl. eexists. split; [done|]. split; [done|].
  intros n. rewrite set_to_list_elem, (mapM_elem _ _ _ _ Hfound). split.
  - intros (k & [Hk Hin]%list_elem_of_filter & Hn).
    destruct (Hkeys k Hin Hk) as (n' & -> & _).
    rewrite (waveforms_key_number n') in Hn.
    by inversion Hn; subst.
  - intros Hin. exists (waveforms_key n).
    pose proof (waveforms_key_found n) as Hw.
    pose proof (waveforms_key_number n) as Hch.
    split; [by apply list_elem_of_filter | done].
Qed.

Lemma new_RawDataContainer_total (t : Tree) :
  well_formed t ->
  exists data, new_RawDataContainer set_to_list t = inr data /\
    container_ok data /\
    (forall n, n ∈ channels data <-> waveforms_key n ∈ keys t).
Proof.
  intros Hwf.
  destruct (get_channel_list_well_formed t Hwf) as (cs & Hcs & Hnd & Hiff).
  destruct Hwf as [Hkeys [ts Hts]].
  destruct (mapM_total (fun channel =>
              match samples_of t ("channel" +:+ Str.of_int channel +:+ "_waveforms") with
              | Some m => ret m
              | None => raise KeyError
              end) cs) as [ws Hws].
  { apply Forall_forall. intros n Hn%Hiff.
    destruct (Hkeys _ Hn (waveforms_key_found n)) as (_ & _ & [m Hm]).
    exists m. unfold waveforms_key in Hm. by rewrite Hm. }
  exists {| channels := cs; waveforms := ws; timestamps := ts |}.
  split.
  - unfold new_RawDataContainer, get_waveforms, get_timestamps.
    rewrite Hcs. cbn [bind]. rewrite Hws. cbn [bind]. by rewrite Hts.
  - split; [|done]. split; [done|]. simpl.
    symmetry. by eapply mapM_length.
Qed.

End WellFormed.

Section MachinePipeline.

Lemma of_shape_rectangular rows cols (m : matrix) :
  of_shape rows cols m -> rectangular m = true.
Proof.
  intros [_ Hall]. destruct m as [|w m]; [done|]. simpl.
  apply Forall_cons in Hall as [Hw Hall].
  apply forallb_forall. intros w' Hin%list_elem_of_In.
  rewrite Forall_forall in Hall. apply Nat.eqb_eq. rewrite Hw. by apply Hall.
Qed.

Lemma of_shape_shape rows cols (m m' : matrix) :
  of_shape rows cols m -> of_shape rows cols m' -> shape m' = shape m.
Proof.
  intros Hm Hm'. unfold shape.
  rewrite (of_shape_rectangular _ _ _ Hm), (of_shape_rectangular _ _ _ Hm').
  destruct Hm as [Hr Hc], Hm' as [Hr' Hc'].
  rewrite Hr, Hr'. f_equal.
  destruct m as [|w m], m' as [|w' m']; simpl in *; try done; try congruence.
  apply Forall_cons in Hc as [-> _]. by apply Forall_cons in Hc' as [-> _].
Qed.

Lemma stack_of_shape rows cols (ws : list matrix) :
  Forall (of_shape rows cols) ws -> Machine.stack ws = inr ws.
Proof.
  intros Hall. destruct ws as [|m ws]; [done|]. simpl.
  apply Forall_cons in Hall as [Hm Hall].
  assert (forallb (fun m' => bool_decide (shape m' = shape m)) ws = true) as ->;
    [|done].
  apply forallb_forall. intros m' Hin%list_elem_of_In.
  rewrite Forall_forall in Hall. apply bool_decide_eq_true.
  by apply (of_shape_shape rows cols), Hall.
Qed.

Lemma stack_inv (ws ws' : list matrix) :
  Machine.stack ws = inr ws' -> ws' = ws.
Proof.
  destruct ws as [|m ws]; simpl; [by inversion 1|].
  destruct (forallb _ ws); [by inversion 1 | done].
Qed.

Lemma machine_new_RawDataContainer_inv f (t : Tree) (data : RawDataContainer) :
  Machine.new_RawDataContainer f t = inr data ->
  new_RawDataContainer f t = inr data.
Proof.
  unfold Machine.new_RawDataContainer, new_RawDataContainer. intros H.
  destruct (get_channel_list f t) as [e|cs]; simpl in *; [done|].
  destruct (get_waveforms t cs) as [e|ws]; simpl in *; [done|].
  destruct (Machine.stack ws) as [e|ws'] eqn:Hst; simpl in *; [done|].
  by rewrite (stack_inv _ _ Hst) in H.
Qed.

Lemma machine_new_RawDataContainer_ok f (t : Tree) (data : RawDataContainer) :
  new_RawDataContainer f t = inr data ->
  Machine.stack (waveforms data) = inr (waveforms data) ->
  Machine.new_RawDataContainer f t = inr data.
Proof.
  unfold Machine.new_RawDataContainer, new_RawDataContainer. intros H Hst.
  destruct (get_channel_list f t) as [e|cs]; simpl in *; [done|].
  destruct (get_waveforms t cs) as [e|ws]; simpl in *; [done|].
  destruct (get_timestamps t) as [e|ts]; simpl in *; [done|].
  inversion H; subst data. simpl in Hst. rewrite Hst. simpl.
  by destruct (get_timestamps t).
Qed.

End MachinePipeline.



(** X19. One key of ASCII characters that holds [waveforms] and cannot be
    read as a channel makes the channel discovery fail, and with it the
    construction of the container and the whole pipeline, whatever the
    other keys are. *)
Theorem get_channel_list_bad_key (set_to_list : list Z -> list Z)
    (st : sample_type) (dt : dtype) (t : Tree) (k : string) (e : exn) :
  k ∈ keys t -> is_ascii k = true ->
  Str.contains "waveforms" k = true ->
  channel_of_key k = inl e ->
  exists e', get_channel_list set_to_list t = inl e' /\
             Machine.new_RawDataContainer set_to_list t = inl e' /\
             Machine.create_from_file set_to_list st dt t = inl e'.
Proof.
  intros Hk _ Hw He.
  destruct (mapM_fails channel_of_key
              (filter (fun k => Str.contains "waveforms" k = true) (keys t))
              k e) as [e' He']; [by apply list_elem_of_filter | done |].
  exists e'.
  assert (get_channel_list set_to_list t = inl e') as Hcs
    by (unfold get_channel_list; by rewrite He').
  assert (Machine.new_RawDataContainer set_to_list t = inl e') as Hnew
    by (unfold Machine.new_RawDataContainer; by rewrite Hcs).
  split; [done|]. split; [done|].
  unfold Machine.create_from_file. by rewrite Hnew.
Qed.

Lemma get_channel_list_bad_key_witness :
  let t := {| keys := ["channel1_waveforms"; "channelX_waveforms"]%string;
              samples_of := fun _ => Some [[4096; 0]]%Q;
              counts_of := fun _ => Some [5; 3] |} in
  exists e', get_channel_list remove_dups t = inl e' /\
             Machine.new_RawDataContainer remove_dups t = inl e' /\
             Machine.create_from_file remove_dups float64 int64 t = inl e'.
Proof.
  intros t.
  apply (get_channel_list_bad_key remove_dups float64 int64 t
           "channelX_waveforms" ValueError);
    [by right; left | reflexivity | reflexivity | reflexivity].
Defined.

(** X21. On a source whose keys that hold [waveforms] are the branch names
    of channel numbers, whose branches of waveforms are two-dimensional
    floating-point arrays of one shape with at least one column, and whose
    branch [timestamp] is not empty and has an element type that holds
    [2^30] times the number of its resets, the pipeline returns a mapping:
    it has an entry for exactly the channel numbers whose branch names are
    among the keys, and each entry has one event per row. *)
Theorem create_from_file_well_formed (set_to_list : list Z -> list Z)
    (st : sample_type) (dt : dtype) (t : Tree) (rows cols : nat) (ts : list Z) :
  (forall l, NoDup (set_to_list l)) ->
  (forall l x, x ∈ set_to_list l <-> x ∈ l) ->
  well_formed t ->
  floating st = true ->
  (forall k m, k ∈ keys t -> samples_of t k = Some m -> of_shape rows cols m) ->
  (0 < cols)%nat ->
  counts_of t "timestamp" = Some ts -> ts <> [] ->
  2 ^ 30 * Z.of_nat (length (reset_indices ts)) <= Dtype.max dt ->
  exists d, Machine.create_from_file set_to_list st dt t = inr d /\
    (forall n, is_Some (d !! n) <-> waveforms_key n ∈ keys t) /\
    (forall n evs, d !! n = Some evs -> length evs = rows).
Proof.
  intros Hnd Helem Hwf Hfl Hshape Hcols Hts Hne Hfit.
  destruct (new_RawDataContainer_total set_to_list Hnd Helem t Hwf)
    as (data & Hnew & Hok & Hiff).
  pose proof Hok as [_ Hlen].
  pose proof (new_RawDataContainer_inv set_to_list t data Hnew)
    as (_ & Hws & Hts').
  rewrite Hts in Hts'. inversion Hts' as [Hts'']. clear Hts'.
  destruct (get_waveforms_inv t _ _ Hws) as [_ Hpos].
  assert (Forall (of_shape rows cols) (waveforms data)) as Hall.
  { apply Forall_forall. intros m [i Hi]%list_elem_of_lookup.
    destruct (lookup_lt_is_Some_2 (channels data) i) as [n Hn].
    { rewrite Hlen. by eapply lookup_lt_Some. }
    destruct (Hpos i n Hn) as (m' & Hm' & Hkey).
    rewrite Hi in Hm'. inversion Hm'; subst m'.
    apply (Hshape (waveforms_key n)); [|done].
    apply Hiff, list_elem_of_lookup. eauto. }
  assert (Machine.new_RawDataContainer set_to_list t = inr data) as Hnew'
    by (apply machine_new_RawDataContainer_ok;
        [done | by apply (stack_of_shape rows cols)]).
  destruct (machine_correct_timestamps_returns dt ts Hfit) as (out & Hout & Hlo).
  set (data' := {| channels := channels data;
                   waveforms := map (map (volts_in st)) (waveforms data);
                   timestamps := out |}).
  assert (Machine.preprocess st dt data = inr data') as Hpre.
  { apply machine_preprocess_ok; [done | done | | by rewrite <- Hts''].
    eapply Forall_impl; [exact Hall|]. intros m. apply of_shape_rectangular. }
  assert (container_ok data') as Hok'.
  { destruct Hok as [Hnd' _]. split; simpl; [done | by rewrite length_map]. }
  destruct (create_events_dict_total data') as [d Hd].
  { simpl. intros ->. destruct ts; [done | simpl in Hlo; lia]. }
  { simpl. apply Forall_forall. intros m' Hm'.
    apply list_elem_of_In, in_map_iff in Hm' as (m & <- & Hm%list_elem_of_In).
    rewrite Forall_forall in Hall. destruct (Hall m Hm) as [_ Hrows].
    unfold nonempty_waveforms. apply Forall_forall. intros w' Hw'.
    apply list_elem_of_In, in_map_iff in Hw' as (w & <- & Hw%list_elem_of_In).
    rewrite Forall_forall in Hrows. specialize (Hrows w Hw).
    unfold volts_in. destruct w; [simpl in Hrows; lia | done]. }
  exists d. split.
  { unfold Machine.create_from_file. rewrite Hnew'. cbn [bind].
    rewrite Hpre. exact Hd. }
  destruct (create_events_dict_inv data' d Hok' Hd) as [Hno Hin].
  assert (forall n evs, d !! n = Some evs ->
            n ∈ channels data /\ length evs = rows) as Hentry.
  { intros n evs Hlook.
    destruct (decide (n ∈ channels data)) as [Hn|Hn];
      [|by rewrite (Hno n Hn) in Hlook].
    split; [done|].
    apply list_elem_of_lookup in Hn as [i Hi].
    destruct (lookup_lt_is_Some_2 (waveforms data) i) as [m Hm].
    { rewrite <- Hlen. by eapply lookup_lt_Some. }
    destruct (Hin i n (map (volts_in st) m) Hi) as (evs' & Hlook' & Hwf' & _).
    { simpl. by rewrite lookup_map, Hm. }
    rewrite Hlook in Hlook'. inversion Hlook'; subst evs'.
    apply (f_equal length) in Hwf'. rewrite length_fmap, length_map in Hwf'.
    rewrite Hwf'. rewrite Forall_forall in Hall.
    apply (Hall m). apply list_elem_of_lookup. eauto. }
  split.
  - intros n. rewrite <- Hiff. split.
    + intros [evs Hlook]. by apply (Hentry n evs).
    + intros [i Hi]%list_elem_of_lookup.
      destruct (lookup_lt_is_Some_2 (waveforms data') i) as [ws Hws'].
      { destruct Hok' as [_ <-]. by eapply lookup_lt_Some. }
      destruct (Hin i n ws Hi Hws') as (evs & -> & _). by eexists.
  - intros n evs Hlook. by apply (Hentry n evs).
Qed.

Lemma create_from_file_well_formed_witness :
  let t := {| keys := ["channel3_waveforms"; "timestamp"; "channel-1_waveforms"]%string;
              samples_of := fun _ => Some [[4096; 0; 1]; [1; 2; 6]]%Q;
              counts_of := fun _ => Some [5; 3] |} in
  exists d, Machine.create_from_file remove_dups float64 int64 t = inr d /\
    (forall n, is_Some (d !! n) <-> waveforms_key n ∈ keys t) /\
    (forall n evs, d !! n = Some evs -> length evs = 2%nat).
Proof.
  intros t.
  apply (create_from_file_well_formed remove_dups float64 int64 t 2 3 [5; 3]
           NoDup_remove_dups (fun l x => elem_of_remove_dups l x)).
  - split; [|by eexists].
    intros k Hk Hw. simpl in Hk.
    rewrite !elem_of_cons, elem_of_nil in Hk.
    destruct Hk as [-> | [-> | [-> | []]]].
    + exists 3. split; [reflexivity | by eexists].
    + discriminate Hw.
    + exists (-1). split; [reflexivity | by eexists].
  - reflexivity.
  - intros k m _ Hm. simpl in Hm. inversion Hm. split; [done|].
    by repeat constructor.
  - lia.
  - reflexivity.
  - discriminate.
  - vm_compute. discriminate.
Defined.

(** X22. What the pipeline returns, end to end: the list of a channel
    holds, in capture order, the waveforms of the channel's branch with the
    baseline subtracted and divided by 4096 in the arithmetic of the
    samples, and its [k]-th event carries the entry of the corrected
    timestamp array at the position of the shared cyclic cursor. *)
Theorem create_from_file_events (set_to_list : list Z -> list Z)
    (st : sample_type) (dt : dtype) (t : Tree)
    (d : gmap Z (list DigitizerEvent)) :
  (forall l, NoDup (set_to_list l)) ->
  Machine.create_from_file set_to_list st dt t = inr d ->
  exists raw out,
    Machine.new_RawDataContainer set_to_list t = inr raw /\
    Machine.correct_timestamps dt (timestamps raw) = inr out /\
    (forall ch, is_Some (d !! ch) -> ch ∈ channels raw) /\
    forall i ch m,
      channels raw !! i = Some ch -> waveforms raw !! i = Some m ->
      samples_of t (waveforms_key ch) = Some m /\
      exists evs, d !! ch = Some evs /\
        waveform <$> evs = map (volts_in st) m /\
        forall k ev, evs !! k = Some ev ->
          out !! ((events_before (waveforms raw) i + k)
                    mod length (timestamps raw))%nat
          = Some (timestamp ev).
Proof.
  intros Hnd H. unfold Machine.create_from_file in H.
  destruct (Machine.new_RawDataContainer set_to_list t) as [e|raw] eqn:Hraw;
    simpl in H; [done|].
  destruct (Machine.preprocess st dt raw) as [e|data] eqn:Hpre; simpl in H; [done|].
  pose proof (machine_new_RawDataContainer_inv _ _ _ Hraw) as Hraw'.
  pose proof (new_RawDataContainer_ok set_to_list Hnd t raw Hraw') as Hok.
  pose proof Hok as [Hnd' Hlen].
  destruct (machine_preprocess_inv st dt raw data Hlen Hpre) as (out & Hout & ->).
  exists raw, out. split; [done|]. split; [done|].
  assert (container_ok {| channels := channels raw;
                          waveforms := map (map (volts_in st)) (waveforms raw);
                          timestamps := out |}) as Hok'
    by (split; simpl; [done | by rewrite length_map]).
  destruct (create_events_dict_inv _ d Hok' H) as [Hno Hin]. simpl in *.
  split.
  - intros ch Hsome. destruct (decide (ch ∈ channels raw)) as [|Hn]; [done|].
    rewrite (Hno ch Hn) in Hsome. by destruct Hsome.
  - intros i ch m Hch Hm.
    apply new_RawDataContainer_inv in Hraw' as (_ & Hws & _).
    destruct (get_waveforms_inv t _ _ Hws) as [_ Hpos].
    destruct (Hpos i ch Hch) as (m0 & Hm0 & Hkey).
    rewrite Hm in Hm0. inversion Hm0; subst m0. split; [done|].
    destruct (Hin i ch (map (volts_in st) m) Hch) as (evs & Hlook & Hwf & Hts).
    { by rewrite lookup_map, Hm. }
    exists evs. split; [done|]. split; [done|].
    intros k ev Hk. specialize (Hts k ev Hk).
    rewrite events_before_volts_in in Hts.
    by rewrite (machine_fold_length dt _ _ _ Hout) in Hts.
Qed.

Lemma create_from_file_events_witness :
  let t := {| keys := ["channel3_waveforms"; "timestamp"]%string;
              samples_of := fun _ => Some [[4096; 0; 1]; [1; 2; 6]]%Q;
              counts_of := fun _ => Some [5; 3; 4] |} in
  exists d raw out,
    Machine.create_from_file remove_dups float64 int64 t = inr d /\
    Machine.new_RawDataContainer remove_dups t = inr raw /\
    Machine.correct_timestamps int64 (timestamps raw) = inr out /\
    (forall ch, is_Some (d !! ch) -> ch ∈ channels raw) /\
    forall i ch m,
      channels raw !! i = Some ch -> waveforms raw !! i = Some m ->
      samples_of t (waveforms_key ch) = Some m /\
      exists evs, d !! ch = Some evs /\
        waveform <$> evs = map (volts_in float64) m /\
        forall k ev, evs !! k = Some ev ->
          out !! ((events_before (waveforms raw) i + k)
                    mod length (timestamps raw))%nat
          = Some (timestamp ev).
Proof.
  intros t.
  assert (exists d, Machine.create_from_file remove_dups float64 int64 t = inr d)
    as [d Hd] by (vm_compute; by eexists).
  exists d.
  destruct (create_from_file_events remove_dups float64 int64 t d
              NoDup_remove_dups Hd) as (raw & out & Hraw & Hout & Hrest).
  exists raw, out. split; [exact Hd|]. split; [exact Hraw|].
  split; [exact Hout | exact Hrest].
Defined.
